(** * StepPage: the wizard controller of [src/step-page.tsx]

    The React components of the file are embedded as pure functions over
    explicit hook cells.  A component is a function from its props and its
    hook cells to what it renders (and the cells after the render); an event
    handler is a computation that produces the list of state-setter and
    callback invocations it performs, together with its completion (normal
    or thrown).  Function values created by [useCallback] are represented by
    the variables they capture, so that the dependency comparison of
    [useCallback]/[useMemo] is decidable.  Structural equality of such a
    closure is implied by JavaScript identity, hence every cache hit of the
    program is a cache hit of the model.  Step numbers are integers ([Z]);
    the 1-indexed position of an entry of the step list is its index plus
    one. *)

From Stdlib Require Import ZArith Lia.
From stdpp Require Import base decidable option list numbers strings.

Local Open Scope Z_scope.

(** What the application's [onStepChange] does when it is invoked is outside
    the program: [cb_throws cb step] tells whether the call throws. *)
Class CallbackBehaviour (Callback Err : Type) :=
  cb_throws : Callback → Z → option Err.

Section StepPage.

(** [Callback] is the type of handles of the functions the embedding
    application passes in ([onStepChange], [onNext], [onPrev]); they are
    compared by identity.  [Err] is the type of thrown values and [Node] the
    type of renderable content ([React.ReactNode]) the program passes
    through without inspecting it. *)
Context {Callback Err Node : Type} `{EqDecision Callback}.
Context `{CallbackBehaviour Callback Err}.

(** ** Handlers *)

Inductive Direction := Next | Prev.

Inductive Effect :=
| SetInternalStep (step : Z)        (* setInternalStep(step) *)
| SetTotalSteps (total : Z)         (* setTotalSteps(total) *)
| SetIsLoading (loading : bool)     (* setIsLoading(loading) *)
| OnStepChange (cb : Callback) (step : Z)   (* onStepChange(step) *)
| CallHook (cb : Callback)          (* onNext() / onPrev() *)
| Navigate (d : Direction).         (* a footer handler reaches its call of
                                       nextStep() / prevStep() *)

Inductive Completion (A : Type) :=
| Normal (a : A)
| Throw (e : Err).
Arguments Normal {A} a.
Arguments Throw {A} e.

(** A handler run: the effects performed, in order, and how it completed. *)
Definition Handler (A : Type) : Type := list Effect * Completion A.

Definition ret {A} (a : A) : Handler A := ([], Normal a).

Definition bind {A B} (m : Handler A) (k : A → Handler B) : Handler B :=
  match m with
  | (es, Normal a) => let '(es', c) := k a in (es ++ es', c)
  | (es, Throw e) => (es, Throw e)
  end.

Definition emit (e : Effect) : Handler unit := ([e], Normal tt).

Definition throw {A} (e : Err) : Handler A := ([], Throw e).

(** [try { body } finally { fin }]: [fin] runs on both completions of
    [body]; a throw of [body] is re-thrown after [fin] completed normally. *)
Definition try_finally {A} (body : Handler A) (fin : Handler unit) : Handler A :=
  match body with
  | (es, Normal a) => let '(es', c) := fin in
                      (es ++ es', match c with Normal _ => Normal a | Throw e => Throw e end)
  | (es, Throw e) => let '(es', c) := fin in
                     (es ++ es', match c with Normal _ => Throw e | Throw e' => Throw e' end)
  end.

(** [m; k] of the source: run [m], then [k] unless [m] threw. *)
Definition andThen {A B} (m : Handler A) (k : Handler B) : Handler B :=
  bind m (λ _, k).

(** Calling the application's callback. *)
Definition invoke (cb : Callback) (step : Z) : Handler unit :=
  ([OnStepChange cb step],
   match cb_throws cb step with Some e => Throw e | None => Normal tt end).

(** ** Root component: props, hook cells, closures *)

Record StepPageProps := {
  defaultStep : option Z;             (* defaultStep?: number, default 1 *)
  controlledStep : option Z;          (* currentStep?: number *)
  onStepChange : option Callback;     (* onStepChange?: (step) => void *)
}.

(** The function created by [useCallback] at lines 54-64, as the variables
    it closes over. *)
Record GoToStepFn := {
  g_isControlled : bool;
  g_onStepChange : option Callback;
  g_totalSteps : Z;
}.

(** The functions created at lines 66-68 and 70-72 close over [currentStep]
    and [goToStep]. *)
Record StepFn := {
  s_currentStep : Z;
  s_goToStep : GoToStepFn;
}.

#[global] Instance GoToStepFn_eq_dec : EqDecision GoToStepFn.
Proof. solve_decision. Defined.

#[global] Instance StepFn_eq_dec : EqDecision StepFn.
Proof. solve_decision. Defined.

(** Body of [goToStep]. *)
Definition run_goToStep (f : GoToStepFn) (step : Z) : Handler unit :=
  if (step <? 1) || (step >? g_totalSteps f) then ret tt
  else if g_isControlled f then
    match g_onStepChange f with
    | Some cb => invoke cb step
    | None => ret tt
    end
  else emit (SetInternalStep step).

(** Bodies of [nextStep] and [prevStep]. *)
Definition run_nextStep (f : StepFn) : Handler unit :=
  run_goToStep (s_goToStep f) (s_currentStep f + 1).

Definition run_prevStep (f : StepFn) : Handler unit :=
  run_goToStep (s_goToStep f) (s_currentStep f - 1).

Record StepPageContextValue := {
  currentStep : Z;
  totalSteps : Z;
  goToStep : GoToStepFn;
  nextStep : StepFn;
  prevStep : StepFn;
  canGoNext : bool;
  canGoPrev : bool;
}.

(** A [useMemo]/[useCallback] cell: the dependencies and the value of the
    render that last computed it. *)
Definition MemoCell (D V : Type) : Type := option (D * V).

Definition useMemo {D V} `{EqDecision D}
    (cell : MemoCell D V) (deps : D) (fresh : V) : V * MemoCell D V :=
  match cell with
  | Some (d, v) =>
      if decide (d = deps) then (v, cell) else (fresh, Some (deps, fresh))
  | None => (fresh, Some (deps, fresh))
  end.

Definition GoToStepDeps : Type := bool * option Callback * Z.
Definition StepDeps : Type := Z * GoToStepFn.
Definition ValueDeps : Type := Z * Z * GoToStepFn * StepFn * StepFn.

(** Hook cells of one [StepPage] instance, in call order. *)
Record StepPageHooks := {
  internalStep : Z;                                   (* useState(defaultStep) *)
  totalStepsCell : Z;                                 (* useState(0) *)
  goToStepCell : MemoCell GoToStepDeps GoToStepFn;
  nextStepCell : MemoCell StepDeps StepFn;
  prevStepCell : MemoCell StepDeps StepFn;
  valueCell : MemoCell ValueDeps StepPageContextValue;
}.

(** First render: the initial values of the two [useState] cells. *)
Definition mount (props : StepPageProps) : StepPageHooks := {|
  internalStep := default 1 (defaultStep props);
  totalStepsCell := 0;
  goToStepCell := None;
  nextStepCell := None;
  prevStepCell := None;
  valueCell := None;
|}.

(** One render of [StepPage] (lines 47-85): the context value it provides
    and the cells after the render. *)
Definition StepPage (props : StepPageProps) (h : StepPageHooks)
    : StepPageContextValue * StepPageHooks :=
  let isControlled := bool_decide (is_Some (controlledStep props)) in
  let currentStep :=
    match controlledStep props with Some c => c | None => internalStep h end in
  let totalSteps := totalStepsCell h in
  let '(goToStep, c1) :=
    useMemo (goToStepCell h) (isControlled, onStepChange props, totalSteps)
      {| g_isControlled := isControlled;
         g_onStepChange := onStepChange props;
         g_totalSteps := totalSteps |} in
  let '(nextStep, c2) :=
    useMemo (nextStepCell h) (currentStep, goToStep)
      {| s_currentStep := currentStep; s_goToStep := goToStep |} in
  let '(prevStep, c3) :=
    useMemo (prevStepCell h) (currentStep, goToStep)
      {| s_currentStep := currentStep; s_goToStep := goToStep |} in
  let '(value, c4) :=
    useMemo (valueCell h) (currentStep, totalSteps, goToStep, nextStep, prevStep)
      {| currentStep := currentStep;
         totalSteps := totalSteps;
         goToStep := goToStep;
         nextStep := nextStep;
         prevStep := prevStep;
         canGoNext := currentStep <? totalSteps;
         canGoPrev := currentStep >? 1 |} in
  (value,
   {| internalStep := internalStep h;
      totalStepsCell := totalStepsCell h;
      goToStepCell := c1;
      nextStepCell := c2;
      prevStepCell := c3;
      valueCell := c4 |}).

(** The context value a render provides. *)
Definition render (props : StepPageProps) (h : StepPageHooks)
    : StepPageContextValue := (StepPage props h).1.

(** Committing the state-setter calls of a handler to the root's cells. *)
Definition apply_effect (h : StepPageHooks) (e : Effect) : StepPageHooks :=
  match e with
  | SetInternalStep step =>
      {| internalStep := step;
         totalStepsCell := totalStepsCell h;
         goToStepCell := goToStepCell h;
         nextStepCell := nextStepCell h;
         prevStepCell := prevStepCell h;
         valueCell := valueCell h |}
  | SetTotalSteps total =>
      {| internalStep := internalStep h;
         totalStepsCell := total;
         goToStepCell := goToStepCell h;
         nextStepCell := nextStepCell h;
         prevStepCell := prevStepCell h;
         valueCell := valueCell h |}
  | SetIsLoading _ | OnStepChange _ _ | CallHook _ | Navigate _ => h
  end.

Definition apply_effects (h : StepPageHooks) (es : list Effect) : StepPageHooks :=
  foldl apply_effect h es.

(** The invocations of the application's [onStepChange] among effects. *)
Definition callback_calls (es : list Effect) : list (Callback * Z) :=
  omap (λ e, match e with OnStepChange cb step => Some (cb, step) | _ => None end) es.

(** The writes to the root's [internalStep] among effects. *)
Definition step_writes (es : list Effect) : list Z :=
  omap (λ e, match e with SetInternalStep step => Some step | _ => None end) es.

(** ** Step list: indicators and registration of the step count *)

Record StepItemData := {
  title : string;
  description : option string;
  icon : option Node;
}.

Record StepPagesProps := {
  steps : list StepItemData;
  (* setTotalSteps?: whether the prop is supplied; the only function the
     program ever passes is the state setter of the enclosing [StepPage] *)
  setTotalSteps : bool;
}.

Inductive Marker :=
| CheckMark
| CustomIcon (n : Node)
| StepNumber (n : Z).

(** What is rendered for one entry of [steps] (lines 150-219). *)
Record Indicator := {
  stepNumber : Z;
  isActive : bool;
  isCompleted : bool;
  isClickable : bool;
  onClick : Handler unit;   (* () => isClickable && goToStep(stepNumber) *)
  disabled : bool;          (* disabled={!isClickable} *)
  marker : Marker;
  connector : option bool;  (* the divider after the entry, completed or not *)
}.

Definition StepPages (ctx : StepPageContextValue) (p : StepPagesProps)
    : list Indicator :=
  imap (λ index step,
    let stepNumber := Z.of_nat index + 1 in
    let isActive := stepNumber =? currentStep ctx in
    let isCompleted := stepNumber <? currentStep ctx in
    let isClickable := stepNumber <=? currentStep ctx in
    {| stepNumber := stepNumber;
       isActive := isActive;
       isCompleted := isCompleted;
       isClickable := isClickable;
       onClick := if isClickable then run_goToStep (goToStep ctx) stepNumber
                  else ret tt;
       disabled := negb isClickable;
       marker := if isCompleted then CheckMark
                 else match icon step with
                      | Some n => CustomIcon n
                      | None => StepNumber stepNumber
                      end;
       connector := if stepNumber <? Z.of_nat (length (steps p))
                    then Some (stepNumber <? currentStep ctx) else None |})
    (steps p).

(** A click on an indicator button: the browser dispatches no click to a
    disabled button. *)
Definition click (i : Indicator) : Handler unit :=
  if disabled i then ret tt else onClick i.

(** The effect of [StepPages] (lines 140-142), with dependencies
    [steps.length, setTotalSteps]: it runs after the first render and after
    each render in which a dependency differs from the previous render. *)
Definition EffectDeps : Type := nat * bool.

Definition StepPages_effect (prev : option EffectDeps) (p : StepPagesProps)
    : list Effect * option EffectDeps :=
  let deps := (length (steps p), setTotalSteps p) in
  if decide (prev = Some deps) then ([], prev)
  else (if setTotalSteps p
        then [SetTotalSteps (Z.of_nat (length (steps p)))] else [],
        Some deps).

(** ** Content panes *)



(** ** The element tree under the root *)

(** The children of [StepPage], as far as the placement of a step list is
    concerned. *)
#[warnings="-register-all"] Inductive Element :=
| EStepPageHeader (children : list Element)
| EStepPages (p : StepPagesProps)
| EStepPageContent (children : list Element)
| EStepItem (step : Z) (children : list Element)
| EStepPageFooter (children : list Element)
| EOther (n : Node).

(** [React.cloneElement(child, { setTotalSteps })] (lines 90-97).  The prop
    is added to every direct child; [StepPages] is the only component whose
    parameter list reads it, the others drop it. *)
Definition cloneElement_setTotalSteps (child : Element) : Element :=
  match child with
  | EStepPages p => EStepPages {| steps := steps p; setTotalSteps := true |}
  | EStepPageHeader _ | EStepPageContent _ | EStepItem _ _
  | EStepPageFooter _ | EOther _ => child
  end.

(** The [StepPages] instances an element mounts, with the props they
    receive.  Containers render their children as they are; [StepItem]
    renders them for the current step only. *)
Fixpoint mounted_StepPages (current : Z) (e : Element) : list StepPagesProps :=
  match e with
  | EStepPages p => [p]
  | EStepPageHeader cs | EStepPageContent cs | EStepPageFooter cs =>
      flat_map (mounted_StepPages current) cs
  | EStepItem step cs =>
      if decide (current ≠ step) then []
      else flat_map (mounted_StepPages current) cs
  | EOther _ => []
  end.

(** Mounting [<StepPage {...props}>{children}</StepPage>]: the first render
    followed by the effects of the step lists it mounted. *)
Definition mount_tree (props : StepPageProps) (children : list Element)
    : StepPageHooks :=
  let r := StepPage props (mount props) in
  let instances :=
    flat_map (mounted_StepPages (currentStep r.1))
             (map cloneElement_setTotalSteps children) in
  apply_effects r.2 (flat_map (λ p, (StepPages_effect None p).1) instances).

(** ** Footer *)

Record StepPageFooterProps := {
  footerChildren : option Node;       (* children?: custom content *)
  showDefaultActions : option bool;   (* default true *)
  nextLabel : option string;          (* default "Next" *)
  prevLabel : option string;          (* default "Previous" *)
  onNext : option Callback;
  onPrev : option Callback;
}.

Record DefaultActions := {
  prevDisabled : bool;
  prevText : string;
  nextDisabled : bool;
  nextText : string;
}.

Inductive FooterView :=
| CustomContent (n : Node)
| DefaultButtons (a : DefaultActions)
| NoActions.

(** What the footer renders (lines 302-331). *)
Definition StepPageFooter (p : StepPageFooterProps) (ctx : StepPageContextValue)
    (isLoading : bool) : FooterView :=
  let isLastStep := currentStep ctx =? totalSteps ctx in
  match footerChildren p with
  | Some n => CustomContent n
  | None =>
      if default true (showDefaultActions p) then
        DefaultButtons
          {| prevDisabled := negb (canGoPrev ctx) || isLoading;
             prevText := default "Previous"%string (prevLabel p);
             nextDisabled := negb (canGoNext ctx) || isLoading;
             nextText := if isLastStep then "Finish"%string
                         else default "Next"%string (nextLabel p) |}
      else NoActions
  end.

(** How the value awaited in [await onNext?.()] settles.  A hook that throws
    when called and a hook whose promise rejects both make the [await]
    expression throw inside the [try] block. *)
Inductive Settlement :=
| Fulfilled
| Rejected (e : Err).

(** [handleNext]/[handlePrev] up to the suspension at [await]. *)
Definition before_await (hook : option Callback) : list Effect :=
  SetIsLoading true ::
  match hook with Some cb => [CallHook cb] | None => [] end.

(** The [await] expression once the awaited value settled.  Without a hook
    the awaited value is [undefined], which never rejects. *)
Definition await (hook : option Callback) (s : Settlement) : Handler unit :=
  match hook, s with
  | Some _, Rejected e => throw e
  | _, _ => ret tt
  end.

(** The rest of the handler: the [try] block from the [await] on and the
    [finally] block.  [commit] is the captured [nextStep] or [prevStep]. *)
Definition after_await (hook : option Callback) (commit : Handler unit)
    (s : Settlement) : Handler unit :=
  try_finally (andThen (await hook s) commit) (emit (SetIsLoading false)).

(** The call [nextStep()] or [prevStep()] of a footer handler. *)
Definition commit_of (d : Direction) (f : StepFn) : Handler unit :=
  andThen (emit (Navigate d))
          (match d with Next => run_nextStep f | Prev => run_prevStep f end).

(** A complete run of the handlers (lines 282-300) for a hook that settles
    as [s]. *)
Definition handleNext (p : StepPageFooterProps) (ctx : StepPageContextValue)
    (s : Settlement) : Handler unit :=
  let '(es, c) := after_await (onNext p) (commit_of Next (nextStep ctx)) s in
  (before_await (onNext p) ++ es, c).

Definition handlePrev (p : StepPageFooterProps) (ctx : StepPageContextValue)
    (s : Settlement) : Handler unit :=
  let '(es, c) := after_await (onPrev p) (commit_of Prev (prevStep ctx)) s in
  (before_await (onPrev p) ++ es, c).

(** The footer's [isLoading] cell after a handler's effects. *)
Definition loading_after (isLoading : bool) (es : list Effect) : bool :=
  foldl (λ b e, match e with SetIsLoading b' => b' | _ => b end) isLoading es.

(** The calls of [nextStep]/[prevStep] by footer handlers among effects. *)
Definition navigations (es : list Effect) : list Direction :=
  omap (λ e, match e with Navigate d => Some d | _ => None end) es.

(** ** A mounted wizard as a transition system

    One root with one step list and one footer.  Handlers run to completion
    between events, except that a footer handler is suspended at its
    [await] until the awaited value settles; it then resumes with the
    functions it captured when the button was clicked. *)

Record Suspended := {
  sus_direction : Direction;
  sus_hook : option Callback;
  sus_commit : StepFn;        (* the captured [nextStep] or [prevStep] *)
}.

Record World := {
  w_props : StepPageProps;
  w_hooks : StepPageHooks;
  w_ctx : StepPageContextValue;       (* provided by the last render *)
  w_stepPages : StepPagesProps;
  w_effectDeps : option EffectDeps;   (* of the effect of the step list *)
  w_footer : StepPageFooterProps;
  w_isLoading : bool;                 (* the footer's useState(false) *)
  w_suspended : list Suspended;
  w_trace : list Effect;              (* all effects so far, oldest first *)
  w_thrown : list Err;                (* what handlers threw, oldest first *)
}.

Inductive Event :=
| EvGoToStep (target : Z)       (* a consumer of the context calls goToStep *)
| EvNextStep
| EvPrevStep
| EvClickIndicator (index : nat)
| EvClickNext (sync : option Err)   (* [Some e]: the hook throws when called *)
| EvClickPrev (sync : option Err)
| EvSettle (i : nat) (s : Settlement)  (* the i-th suspended handler resumes *)
| EvSteps (steps : list StepItemData)  (* the step list is rendered anew *)
| EvProps (props : StepPageProps).     (* the application renders the root *)

(** Committing a handler's effects, followed by the render they cause. *)
Definition perform (w : World) (es : list Effect) (thrown : list Err) : World :=
  let r := StepPage (w_props w) (apply_effects (w_hooks w) es) in
  {| w_props := w_props w;
     w_hooks := r.2;
     w_ctx := r.1;
     w_stepPages := w_stepPages w;
     w_effectDeps := w_effectDeps w;
     w_footer := w_footer w;
     w_isLoading := loading_after (w_isLoading w) es;
     w_suspended := w_suspended w;
     w_trace := w_trace w ++ es;
     w_thrown := w_thrown w ++ thrown |}.

Definition thrown_by {A} (c : Completion A) : list Err :=
  match c with Normal _ => [] | Throw e => [e] end.

Definition run_handler (w : World) (m : Handler unit) : World :=
  perform w m.1 (thrown_by m.2).

Definition with_suspended (w : World) (l : list Suspended) : World :=
  {| w_props := w_props w;
     w_hooks := w_hooks w;
     w_ctx := w_ctx w;
     w_stepPages := w_stepPages w;
     w_effectDeps := w_effectDeps w;
     w_footer := w_footer w;
     w_isLoading := w_isLoading w;
     w_suspended := l;
     w_trace := w_trace w;
     w_thrown := w_thrown w |}.

(** A click on a default button of the footer.  A disabled button receives
    no click; with custom content or without default actions there is no
    such button. *)
Definition click_footer (w : World) (d : Direction) (sync : option Err) : World :=
  match StepPageFooter (w_footer w) (w_ctx w) (w_isLoading w) with
  | DefaultButtons a =>
      if (match d with Next => nextDisabled a | Prev => prevDisabled a end)
      then w
      else
        let hook := match d with
                    | Next => onNext (w_footer w)
                    | Prev => onPrev (w_footer w)
                    end in
        let f := match d with
                 | Next => nextStep (w_ctx w)
                 | Prev => prevStep (w_ctx w)
                 end in
        match hook, sync with
        | Some _, Some e =>
            let m := after_await hook (commit_of d f) (Rejected e) in
            perform w (before_await hook ++ m.1) (thrown_by m.2)
        | _, _ =>
            let w' := perform w (before_await hook) [] in
            with_suspended w'
              (w_suspended w' ++
               [{| sus_direction := d; sus_hook := hook; sus_commit := f |}])
        end
  | CustomContent _ | NoActions => w
  end.

Definition settle (w : World) (i : nat) (s : Settlement) : World :=
  match w_suspended w !! i with
  | None => w
  | Some k =>
      match sus_hook k, s with
      | None, Rejected _ => w      (* [await undefined] does not reject *)
      | _, _ =>
          run_handler (with_suspended w (delete i (w_suspended w)))
            (after_await (sus_hook k)
               (commit_of (sus_direction k) (sus_commit k)) s)
      end
  end.

Definition set_steps (w : World) (l : list StepItemData) : World :=
  let sp := {| steps := l; setTotalSteps := setTotalSteps (w_stepPages w) |} in
  let r := StepPages_effect (w_effectDeps w) sp in
  let w' := perform w r.1 [] in
  {| w_props := w_props w';
     w_hooks := w_hooks w';
     w_ctx := w_ctx w';
     w_stepPages := sp;
     w_effectDeps := r.2;
     w_footer := w_footer w';
     w_isLoading := w_isLoading w';
     w_suspended := w_suspended w';
     w_trace := w_trace w';
     w_thrown := w_thrown w' |}.

Definition set_props (w : World) (props : StepPageProps) : World :=
  let r := StepPage props (w_hooks w) in
  {| w_props := props;
     w_hooks := r.2;
     w_ctx := r.1;
     w_stepPages := w_stepPages w;
     w_effectDeps := w_effectDeps w;
     w_footer := w_footer w;
     w_isLoading := w_isLoading w;
     w_suspended := w_suspended w;
     w_trace := w_trace w;
     w_thrown := w_thrown w |}.

Definition step (w : World) (ev : Event) : World :=
  match ev with
  | EvGoToStep target => run_handler w (run_goToStep (goToStep (w_ctx w)) target)
  | EvNextStep => run_handler w (run_nextStep (nextStep (w_ctx w)))
  | EvPrevStep => run_handler w (run_prevStep (prevStep (w_ctx w)))
  | EvClickIndicator index =>
      match StepPages (w_ctx w) (w_stepPages w) !! index with
      | Some i => run_handler w (click i)
      | None => w
      end
  | EvClickNext sync => click_footer w Next sync
  | EvClickPrev sync => click_footer w Prev sync
  | EvSettle i s => settle w i s
  | EvSteps l => set_steps w l
  | EvProps props => set_props w props
  end.

Definition run (w : World) (evs : list Event) : World := foldl step w evs.

(** Mounting: the first render, the effect of the step list, and the render
    the effect causes. *)
Definition init (props : StepPageProps) (sp : StepPagesProps)
    (fp : StepPageFooterProps) : World :=
  let r := StepPage props (mount props) in
  set_steps
    {| w_props := props;
       w_hooks := r.2;
       w_ctx := r.1;
       w_stepPages := sp;
       w_effectDeps := None;
       w_footer := fp;
       w_isLoading := false;
       w_suspended := [];
       w_trace := [];
       w_thrown := [] |}
    (steps sp).

(** ** Notions used in the statements *)

(** The current step as line 50 computes it from the props and the cell. *)
Definition current (props : StepPageProps) (h : StepPageHooks) : Z :=
  match controlledStep props with Some c => c | None => internalStep h end.

(** The values lines 54-85 compute when no memo cell is consulted. *)
Definition goToStep_of (d : GoToStepDeps) : GoToStepFn :=
  {| g_isControlled := d.1.1; g_onStepChange := d.1.2; g_totalSteps := d.2 |}.

Definition stepFn_of (d : StepDeps) : StepFn :=
  {| s_currentStep := d.1; s_goToStep := d.2 |}.

Definition value_of (d : ValueDeps) : StepPageContextValue :=
  {| currentStep := d.1.1.1.1;
     totalSteps := d.1.1.1.2;
     goToStep := d.1.1.2;
     nextStep := d.1.2;
     prevStep := d.2;
     canGoNext := d.1.1.1.1 <? d.1.1.1.2;
     canGoPrev := d.1.1.1.1 >? 1 |}.

Definition recomputed (props : StepPageProps) (h : StepPageHooks)
    : StepPageContextValue :=
  let g := goToStep_of (bool_decide (is_Some (controlledStep props)),
                        onStepChange props, totalStepsCell h) in
  let f := stepFn_of (current props h, g) in
  value_of (current props h, totalStepsCell h, g, f, f).

(** A memo cell holds what its computation gives on the dependencies it
    stores. *)
Definition cell_ok {D V} (f : D → V) (cell : MemoCell D V) : Prop :=
  ∀ d v, cell = Some (d, v) → v = f d.

Definition cells_ok (h : StepPageHooks) : Prop :=
  cell_ok goToStep_of (goToStepCell h) ∧
  cell_ok stepFn_of (nextStepCell h) ∧
  cell_ok stepFn_of (prevStepCell h) ∧
  cell_ok value_of (valueCell h).

(** The hook cells a root can have: those of a mount, changed by renders
    with any props and by calls of the state setters. *)
Inductive reachable_hooks : StepPageHooks → Prop :=
| reach_mount props : reachable_hooks (mount props)
| reach_render props h :
    reachable_hooks h → reachable_hooks (StepPage props h).2
| reach_effect e h :
    reachable_hooks h → reachable_hooks (apply_effect h e).

(** The worlds a mounted wizard can be in. *)
Definition reachable (w : World) : Prop :=
  ∃ props sp fp evs, w = run (init props sp fp) evs.

(** A world at rest: its cells are those the last render left, and the
    context it provides is the one of that render. *)
Definition world_ok (w : World) : Prop :=
  cells_ok (w_hooks w) ∧
  StepPage (w_props w) (w_hooks w) = (w_ctx w, w_hooks w).

(** The bounds of the data model on a context value. *)
Definition in_bounds (ctx : StepPageContextValue) : Prop :=
  1 ≤ currentStep ctx ≤ Z.max (totalSteps ctx) 1.

(** The footer is idle with no handler suspended, or navigating with
    exactly one. *)
Definition footer_state_ok (w : World) : Prop :=
  match w_suspended w with
  | [] => w_isLoading w = false
  | [_] => w_isLoading w = true
  | _ => False
  end.



(** The step count is the one the effect of the step list pushed last: the
    length of the list when the list receives the setter, and the initial 0
    when it does not. *)
Definition registration_ok (w : World) : Prop :=
  w_effectDeps w
  = Some (length (steps (w_stepPages w)), setTotalSteps (w_stepPages w)) ∧
  totalStepsCell (w_hooks w)
  = if setTotalSteps (w_stepPages w)
    then Z.of_nat (length (steps (w_stepPages w))) else 0.

(** A world whose step list is replaced and nothing else. *)
Definition with_steps (w : World) (l : list StepItemData) : World :=
  {| w_props := w_props w;
     w_hooks := w_hooks w;
     w_ctx := w_ctx w;
     w_stepPages :=
       {| steps := l; setTotalSteps := setTotalSteps (w_stepPages w) |};
     w_effectDeps := w_effectDeps w;
     w_footer := w_footer w;
     w_isLoading := w_isLoading w;
     w_suspended := w_suspended w;
     w_trace := w_trace w;
     w_thrown := w_thrown w |}.

(** The goToStep functions a world can still call: those of the context of
    the last render and those captured by suspended handlers. *)
Definition live_closure (w : World) (f : GoToStepFn) : Prop :=
  f = goToStep (w_ctx w) ∨
  f = s_goToStep (nextStep (w_ctx w)) ∨
  f = s_goToStep (prevStep (w_ctx w)) ∨
  ∃ k, k ∈ w_suspended w ∧ f = s_goToStep (sus_commit k).

(** Effects that leave the step count alone. *)
Definition keeps_total (e : Effect) : Prop :=
  match e with SetTotalSteps _ => False | _ => True end.


(** The events in which a handler of the program runs. *)
Definition is_handler_event (ev : Event) : Prop :=
  match ev with
  | EvSteps _ | EvProps _ => False
  | _ => True
  end.


(** ** Further notions used in the statements *)

(** Events other than a render of the root by the application. *)
Definition keeps_props (ev : Event) : Prop :=
  match ev with
  | EvProps _ => False
  | _ => True
  end.

(** A target that [goToStep] accepts for a step count. *)
Definition accepted (total : Z) (target : Z) : Prop := 1 ≤ target ≤ total.

#[global] Instance accepted_dec total target : Decision (accepted total target).
Proof. unfold accepted. apply _. Defined.

(** Effects that touch neither the cells of the root nor the application. *)
Definition quiet (e : Effect) : Prop :=
  match e with
  | SetInternalStep _ | SetTotalSteps _ | OnStepChange _ _ => False
  | _ => True
  end.

(** What a wizard whose step list has no setter keeps. *)
Definition unregistered_inv (props0 : StepPageProps) (step0 : Z) (w : World)
    : Prop :=
  w_props w = props0 ∧
  totalStepsCell (w_hooks w) = 0 ∧
  internalStep (w_hooks w) = step0 ∧
  setTotalSteps (w_stepPages w) = false ∧
  Forall quiet (w_trace w) ∧
  Forall (λ k, g_totalSteps (s_goToStep (sus_commit k)) = 0) (w_suspended w).




(** The events in which a consumer of the context navigates: calls of the
    three functions and clicks on indicators. *)
Definition is_navigation (ev : Event) : Prop :=
  match ev with
  | EvGoToStep _ | EvNextStep | EvPrevStep | EvClickIndicator _ => True
  | _ => False
  end.

(** ** Element trees: which step lists register, and use outside a root *)

(** Whether every step list of an element is written without the
    [setTotalSteps] prop, as the application writes it. *)
Fixpoint written_without_setter (e : Element) : bool :=
  match e with
  | EStepPages p => negb (setTotalSteps p)
  | EStepPageHeader cs | EStepPageContent cs | EStepPageFooter cs
  | EStepItem _ cs => forallb written_without_setter cs
  | EOther _ => true
  end.

(** The lengths of the step lists that are direct children. *)
Definition direct_step_lists (children : list Element) : list nat :=
  omap (λ e, match e with
             | EStepPages p => Some (length (steps p))
             | _ => None
             end) children.

(** [useStepPage] (lines 22-28): the context of the enclosing provider, or
    the error thrown when there is none. *)
Definition useStepPage (context : option StepPageContextValue)
    : string + StepPageContextValue :=
  match context with
  | None => inl "Step components must be used within StepPage"%string
  | Some c => inr c
  end.

(** The first error thrown while an element renders under a context.
    [StepPages], [StepItem] and [StepPageFooter] start with [useStepPage];
    [StepItem] renders its children for the current step only; the header
    and the content container render their children and nothing else. *)
Fixpoint render_error (context : option StepPageContextValue) (e : Element)
    : option string :=
  match e with
  | EStepPageHeader cs | EStepPageContent cs =>
      head (omap (render_error context) cs)
  | EStepPages _ =>
      match useStepPage context with
      | inl msg => Some msg
      | inr _ => None
      end
  | EStepItem step cs =>
      match useStepPage context with
      | inl msg => Some msg
      | inr ctx =>
          if decide (currentStep ctx ≠ step) then None
          else head (omap (render_error context) cs)
      end
  | EStepPageFooter cs =>
      match useStepPage context with
      | inl msg => Some msg
      | inr _ => head (omap (render_error context) cs)
      end
  | EOther _ => None
  end.

(** Whether an element renders a consumer of the context when there is no
    provider: a consumer itself, or one inside a header or content
    container. *)
Fixpoint has_consumer (e : Element) : bool :=
  match e with
  | EStepPages _ | EStepItem _ _ | EStepPageFooter _ => true
  | EStepPageHeader cs | EStepPageContent cs => existsb has_consumer cs
  | EOther _ => false
  end.

(** ** Components of [src/step-page.example.tsx] and [src/step-page.demo.tsx] *)

(** [CustomNavigationButtons] (example, lines 265-278): the buttons it
    shows, each with its label and what a click runs. *)
Definition CustomNavigationButtons (ctx : StepPageContextValue)
    : list (string * Handler unit) :=
  (if canGoPrev ctx then [("Previous"%string, run_prevStep (prevStep ctx))]
   else []) ++
  (if canGoNext ctx then [("Next"%string, run_nextStep (nextStep ctx))]
   else []).

(** [CustomFooterContent] (example, lines 204-231). *)
Record CustomFooterView := {
  backDisabled : bool;            (* disabled={!canGoPrev} *)
  backClick : Handler unit;       (* onClick={prevStep} *)
  dots : list bool;               (* whether each dot is the current one *)
  continueDisabled : bool;        (* disabled={!canGoNext || !isValid} *)
  continueClick : Handler unit;   (* onClick={nextStep} *)
}.

Definition CustomFooterContent (ctx : StepPageContextValue) (isValid : bool)
    : CustomFooterView :=
  {| backDisabled := negb (canGoPrev ctx);
     backClick := run_prevStep (prevStep ctx);
     (* Array.from({ length: totalSteps }, (_, i) => i + 1 === currentStep) *)
     dots := (λ i, Z.of_nat i + 1 =? currentStep ctx)
             <$> seq 0 (Z.to_nat (totalSteps ctx));
     continueDisabled := negb (canGoNext ctx) || negb isValid;
     continueClick := run_nextStep (nextStep ctx) |}.

(** The feature toggle of [ProjectSetupWizard] (demo, lines 175-182). *)
Definition toggleFeature (features : list string) (feature : string)
    : list string :=
  if bool_decide (feature ∈ features)
  then filter (λ f, f ≠ feature) features
  else features ++ [feature].

(** ** [ControlledStepPage] of [src/step-page.example.tsx] (lines 124-154) *)

(** The component keeps the step in a state of its own and renders the root
    in controlled mode with [onStepChange={setCurrentStep}]. *)
Record ControlledStepPage := {
  c_currentStep : Z;    (* const [currentStep, setCurrentStep] = useState(1) *)
  c_wizard : World;     (* the root it renders, with what is under it *)
}.

(** [<StepPage currentStep={currentStep} onStepChange={setCurrentStep}>] *)
Definition ControlledStepPage_props (setCurrentStep : Callback)
    (currentStep : Z) : StepPageProps :=
  {| defaultStep := None;
     controlledStep := Some currentStep;
     onStepChange := Some setCurrentStep |}.

Definition ControlledStepPage_mount (setCurrentStep : Callback)
    (sp : StepPagesProps) (fp : StepPageFooterProps) : ControlledStepPage :=
  {| c_currentStep := 1;
     c_wizard := init (ControlledStepPage_props setCurrentStep 1) sp fp |}.

(** An event of the wizard under [ControlledStepPage].  The root's
    [onStepChange] is [setCurrentStep], so every call of it during the event
    sets the state, the last call last; the component then renders the root
    with the state it has. *)
Definition ControlledStepPage_step (setCurrentStep : Callback)
    (s : ControlledStepPage) (ev : Event) : ControlledStepPage :=
  let w := step (c_wizard s) ev in
  let calls :=
    callback_calls (drop (length (w_trace (c_wizard s))) (w_trace w)) in
  let v := default (c_currentStep s) (last calls.*2) in
  {| c_currentStep := v;
     c_wizard := set_props w (ControlledStepPage_props setCurrentStep v) |}.

Definition ControlledStepPage_run (setCurrentStep : Callback)
    (s : ControlledStepPage) (evs : list Event) : ControlledStepPage :=
  foldl (ControlledStepPage_step setCurrentStep) s evs.

(** The uncontrolled root with the same first step. *)
Definition uncontrolled_props : StepPageProps :=
  {| defaultStep := Some 1; controlledStep := None; onStepChange := None |}.

(** What an effect of the controlled root is in the uncontrolled one. *)
Definition uncontrolled_effect (e : Effect) : Effect :=
  match e with
  | OnStepChange _ step => SetInternalStep step
  | _ => e
  end.

Definition no_step_write (e : Effect) : Prop :=
  match e with SetInternalStep _ => False | _ => True end.

(** A handler of the uncontrolled root that does what a handler of the
    controlled root does. *)
Definition translated (mc mu : Handler unit) : Prop :=
  mu = (uncontrolled_effect <$> mc.1, mc.2) ∧ Forall no_step_write mc.1.

(** A goToStep function of the controlled root and one of the uncontrolled
    root with the same step count. *)
Definition same_closure (setCurrentStep : Callback) (f g : GoToStepFn) : Prop :=
  g_totalSteps f = g_totalSteps g ∧
  g_isControlled f = true ∧
  g_onStepChange f = Some setCurrentStep ∧
  g_isControlled g = false.

Definition same_suspended (setCurrentStep : Callback) (a b : Suspended) : Prop :=
  sus_direction a = sus_direction b ∧
  sus_hook a = sus_hook b ∧
  s_currentStep (sus_commit a) = s_currentStep (sus_commit b) ∧
  same_closure setCurrentStep (s_goToStep (sus_commit a))
                              (s_goToStep (sus_commit b)).

(** The uncontrolled wizard [u] is where the controlled example [s] is. *)
Definition follows (setCurrentStep : Callback) (s : ControlledStepPage)
    (u : World) : Prop :=
  world_ok (c_wizard s) ∧ world_ok u ∧
  w_props (c_wizard s) = ControlledStepPage_props setCurrentStep (c_currentStep s) ∧
  controlledStep (w_props u) = None ∧
  internalStep (w_hooks u) = c_currentStep s ∧
  totalStepsCell (w_hooks (c_wizard s)) = totalStepsCell (w_hooks u) ∧
  w_stepPages (c_wizard s) = w_stepPages u ∧
  w_effectDeps (c_wizard s) = w_effectDeps u ∧
  w_footer (c_wizard s) = w_footer u ∧
  w_isLoading (c_wizard s) = w_isLoading u ∧
  w_thrown (c_wizard s) = w_thrown u ∧
  Forall2 (same_suspended setCurrentStep)
          (w_suspended (c_wizard s)) (w_suspended u).

End StepPage.

Arguments Effect : clear implicits.
Arguments Completion : clear implicits.
Arguments Normal {Err A} a.
Arguments Throw {Err A} e.
Arguments Handler : clear implicits.
Arguments StepPageProps : clear implicits.
Arguments GoToStepFn : clear implicits.
Arguments StepFn : clear implicits.
Arguments StepPageContextValue : clear implicits.
Arguments StepPageHooks : clear implicits.
Arguments StepItemData : clear implicits.
Arguments StepPagesProps : clear implicits.
Arguments Marker : clear implicits.
Arguments Indicator : clear implicits.
Arguments Element : clear implicits.
Arguments StepPageFooterProps : clear implicits.
Arguments FooterView : clear implicits.
Arguments Settlement : clear implicits.
Arguments Suspended : clear implicits.
Arguments World : clear implicits.
Arguments Event : clear implicits.

(** ** Concrete wizards

    Callbacks are named by numbers, failures are messages and content is
    text; no callback throws. *)

#[export] Instance quiet_callbacks : CallbackBehaviour nat string := λ _ _, None.

Definition uncontrolled (d : option Z) : StepPageProps nat :=
  {| defaultStep := d; controlledStep := None; onStepChange := None |}.

Definition controlled (c : Z) (cb : option nat) : StepPageProps nat :=
  {| defaultStep := None; controlledStep := Some c; onStepChange := cb |}.

Definition entry (t : string) : StepItemData string :=
  {| title := t; description := None; icon := None |}.

Definition three_steps : list (StepItemData string) :=
  [entry "A"; entry "B"; entry "C"].

Definition four_steps : list (StepItemData string) :=
  [entry "A"; entry "B"; entry "C"; entry "D"].

(** A step list as the application writes it, and as it is once the root
    has handed it the setter. *)
Definition as_written (l : list (StepItemData string)) : StepPagesProps string :=
  {| steps := l; setTotalSteps := false |}.

Definition with_setter (l : list (StepItemData string)) : StepPagesProps string :=
  {| steps := l; setTotalSteps := true |}.

Definition default_footer (hook : option nat) : StepPageFooterProps nat string :=
  {| footerChildren := None;
     showDefaultActions := None;
     nextLabel := None;
     prevLabel := None;
     onNext := hook;
     onPrev := None |}.

(** A wizard whose step list is a direct child of the root, with the
    default footer and an [onNext] hook. *)
Definition wizard (props : StepPageProps nat) (l : list (StepItemData string))
    : World nat string string :=
  init props (with_setter l) (default_footer (Some 5%nat)).

(** The cells of a root after its first render and the registration of
    [n] steps. *)
Definition registered_hooks (props : StepPageProps nat) (n : Z)
    : StepPageHooks nat :=
  apply_effect (StepPage props (mount props)).2 (SetTotalSteps n).

(** The tree of the basic usage of the documentation: the step list is
    written inside the header. *)
Definition documented_tree : list (Element string) :=
  [ EStepPageHeader [EStepPages (as_written three_steps)];
    EStepPageContent
      [ EStepItem 1 [EOther "Step 1 Content"%string];
        EStepItem 2 [EOther "Step 2 Content"%string];
        EStepItem 3 [EOther "Step 3 Content"%string] ];
    EStepPageFooter [] ].

(** The same wizard with the step list directly under the root. *)
Definition flat_tree : list (Element string) :=
  [ EStepPages (as_written three_steps);
    EStepPageContent
      [ EStepItem 1 [EOther "Step 1 Content"%string];
        EStepItem 2 [EOther "Step 2 Content"%string];
        EStepItem 3 [EOther "Step 3 Content"%string] ];
    EStepPageFooter [] ].


Arguments CustomFooterView : clear implicits.
Arguments ControlledStepPage : clear implicits.


Section Properties.

Context {Callback Err Node : Type} `{EqDecision Callback}.
Context `{CallbackBehaviour Callback Err}.

Implicit Types (props : StepPageProps Callback) (h : StepPageHooks Callback).
Implicit Types (ctx : StepPageContextValue Callback).
Implicit Types (w : World Callback Err Node).

(** ** Memo cells *)

Lemma useMemo_value {D V} `{EqDecision D} (f : D → V) cell deps :
  cell_ok f cell → (useMemo cell deps (f deps)).1 = f deps.
Proof.
  intros Hok. unfold useMemo.
  destruct cell as [[d v]|]; [|done].
  destruct (decide (d = deps)) as [->|]; [|done].
  simpl. by apply Hok.
Qed.

Lemma useMemo_cell_ok {D V} `{EqDecision D} (f : D → V) cell deps :
  cell_ok f cell → cell_ok f (useMemo cell deps (f deps)).2.
Proof.
  intros Hok. unfold useMemo.
  destruct cell as [[d v]|].
  - destruct (decide (d = deps)); [done|].
    intros d' v' [= <- <-]. done.
  - intros d' v' [= <- <-]. done.
Qed.

Lemma useMemo_again {D V} `{EqDecision D} (cell : MemoCell D V) deps fresh fresh' :
  useMemo (useMemo cell deps fresh).2 deps fresh' = useMemo cell deps fresh.
Proof.
  unfold useMemo.
  destruct cell as [[d v]|]; simpl.
  - destruct (decide (d = deps)) as [->|]; simpl.
    + by rewrite decide_True.
    + by rewrite decide_True.
  - by rewrite decide_True.
Qed.

(** ** Renders of the root *)

Lemma StepPage_internalStep props h :
  internalStep (StepPage props h).2 = internalStep h.
Proof. unfold StepPage. by repeat case_match. Qed.

Lemma StepPage_totalStepsCell props h :
  totalStepsCell (StepPage props h).2 = totalStepsCell h.
Proof. unfold StepPage. by repeat case_match. Qed.

Lemma StepPage_recomputed props h :
  cells_ok h →
  (StepPage props h).1 = recomputed props h ∧ cells_ok (StepPage props h).2.
Proof.
  intros (Hg & Hn & Hp & Hv). unfold StepPage, recomputed.
  set (isC := bool_decide (is_Some (controlledStep props))).
  fold (current props h).
  set (gd := (isC, onStepChange props, totalStepsCell h)).
  change {| g_isControlled := isC; g_onStepChange := onStepChange props;
            g_totalSteps := totalStepsCell h |} with (goToStep_of gd).
  pose proof (useMemo_value goToStep_of _ gd Hg) as E1.
  pose proof (useMemo_cell_ok goToStep_of _ gd Hg) as C1.
  destruct (useMemo (goToStepCell h) gd (goToStep_of gd)) as [g c1].
  simpl in E1, C1. subst g.
  set (sd := (current props h, goToStep_of gd)).
  change {| s_currentStep := current props h; s_goToStep := goToStep_of gd |}
    with (stepFn_of sd).
  pose proof (useMemo_value stepFn_of _ sd Hn) as E2.
  pose proof (useMemo_cell_ok stepFn_of _ sd Hn) as C2.
  destruct (useMemo (nextStepCell h) sd (stepFn_of sd)) as [n c2].
  simpl in E2, C2. subst n.
  pose proof (useMemo_value stepFn_of _ sd Hp) as E3.
  pose proof (useMemo_cell_ok stepFn_of _ sd Hp) as C3.
  destruct (useMemo (prevStepCell h) sd (stepFn_of sd)) as [p c3].
  simpl in E3, C3. subst p.
  set (vd := (current props h, totalStepsCell h, goToStep_of gd,
              stepFn_of sd, stepFn_of sd)).
  pose proof (useMemo_value value_of _ vd Hv) as E4.
  pose proof (useMemo_cell_ok value_of _ vd Hv) as C4.
  change (value_of vd) with
    {| currentStep := current props h; totalSteps := totalStepsCell h;
       goToStep := goToStep_of gd; nextStep := stepFn_of sd;
       prevStep := stepFn_of sd;
       canGoNext := current props h <? totalStepsCell h;
       canGoPrev := current props h >? 1 |} in E4, C4.
  destruct (useMemo (valueCell h) vd _) as [v c4].
  simpl in E4, C4. subst v. done.
Qed.

Lemma StepPage_again props h :
  StepPage props (StepPage props h).2 = StepPage props h.
Proof.
  unfold StepPage.
  set (isC := bool_decide (is_Some (controlledStep props))).
  set (cur := match controlledStep props with Some c => c | None => internalStep h end).
  destruct (useMemo (goToStepCell h) _ _) as [g c1] eqn:E1.
  destruct (useMemo (nextStepCell h) _ _) as [n c2] eqn:E2.
  destruct (useMemo (prevStepCell h) _ _) as [p c3] eqn:E3.
  destruct (useMemo (valueCell h) _ _) as [v c4] eqn:E4.
  cbn [fst snd internalStep totalStepsCell goToStepCell nextStepCell
       prevStepCell valueCell].
  fold cur.
  replace c1 with (useMemo (goToStepCell h) (isC, onStepChange props, totalStepsCell h)
      {| g_isControlled := isC; g_onStepChange := onStepChange props;
         g_totalSteps := totalStepsCell h |}).2 by (by rewrite E1).
  rewrite useMemo_again, E1.
  replace c2 with (useMemo (nextStepCell h) (cur, g)
      {| s_currentStep := cur; s_goToStep := g |}).2 by (by rewrite E2).
  rewrite useMemo_again, E2.
  replace c3 with (useMemo (prevStepCell h) (cur, g)
      {| s_currentStep := cur; s_goToStep := g |}).2 by (by rewrite E3).
  rewrite useMemo_again, E3.
  replace c4 with (useMemo (valueCell h) (cur, totalStepsCell h, g, n, p)
      {| currentStep := cur; totalSteps := totalStepsCell h; goToStep := g;
         nextStep := n; prevStep := p; canGoNext := cur <? totalStepsCell h;
         canGoPrev := cur >? 1 |}).2 by (by rewrite E4).
  rewrite useMemo_again, E4. done.
Qed.

Lemma cells_ok_mount props : cells_ok (mount props).
Proof. repeat split; intros ? ? [=]. Qed.

Lemma cells_ok_apply_effect h e : cells_ok h → cells_ok (apply_effect h e).
Proof. by destruct e. Qed.

Lemma cells_ok_apply_effects h es : cells_ok h → cells_ok (apply_effects h es).
Proof.
  revert h. induction es as [|e es IH]; intros h Hok; [done|].
  apply IH. by apply cells_ok_apply_effect.
Qed.

Lemma reachable_hooks_ok h : reachable_hooks h → cells_ok h.
Proof.
  induction 1 as [props|props h _ IH|e h _ IH].
  - apply cells_ok_mount.
  - by apply StepPage_recomputed.
  - by apply cells_ok_apply_effect.
Qed.

Lemma render_recomputed props h :
  reachable_hooks h → render props h = recomputed props h.
Proof. intros Hr. apply StepPage_recomputed. by apply reachable_hooks_ok. Qed.

(** ** Worlds at rest *)

Lemma perform_ok w es thrown :
  cells_ok (w_hooks w) → world_ok (perform w es thrown).
Proof.
  intros Hok. split; cbn.
  - apply StepPage_recomputed. by apply cells_ok_apply_effects.
  - rewrite StepPage_again. by destruct (StepPage _ _).
Qed.

Lemma perform_ctx w es thrown :
  cells_ok (w_hooks w) →
  w_ctx (perform w es thrown)
  = recomputed (w_props w) (apply_effects (w_hooks w) es).
Proof.
  intros Hok. cbn. apply StepPage_recomputed. by apply cells_ok_apply_effects.
Qed.

Lemma world_ok_ctx w :
  world_ok w → w_ctx w = recomputed (w_props w) (w_hooks w).
Proof.
  intros [Hc Hs]. destruct (StepPage_recomputed (w_props w) (w_hooks w) Hc) as [E _].
  rewrite Hs in E. done.
Qed.

Lemma with_suspended_ok w l : world_ok w → world_ok (with_suspended w l).
Proof. done. Qed.

Lemma run_handler_ok w m : world_ok w → world_ok (run_handler w m).
Proof. intros [Hc _]. by apply perform_ok. Qed.

Lemma click_footer_ok w d sync : world_ok w → world_ok (click_footer w d sync).
Proof.
  intros Hok. unfold click_footer.
  destruct (StepPageFooter _ _ _) as [?|a|]; [done| |done].
  destruct (match d with Next => nextDisabled a | Prev => prevDisabled a end);
    [done|].
  destruct Hok as [Hc _].
  destruct (match d with Next => onNext _ | Prev => onPrev _ end) as [hook|];
    [destruct sync|].
  - by apply perform_ok.
  - apply with_suspended_ok. by apply perform_ok.
  - apply with_suspended_ok. by apply perform_ok.
Qed.

Lemma settle_ok w i s : world_ok w → world_ok (settle w i s).
Proof.
  intros Hok. unfold settle.
  destruct (w_suspended w !! i) as [k|]; [|done].
  destruct (sus_hook k), s; try done; apply run_handler_ok;
    by apply with_suspended_ok.
Qed.

Lemma set_steps_ok w l : world_ok w → world_ok (set_steps w l).
Proof.
  intros [Hc _]. unfold set_steps.
  set (r := StepPages_effect _ _).
  destruct (perform_ok w r.1 [] Hc) as [Hc' Hs']. by split.
Qed.

Lemma set_props_ok w props : world_ok w → world_ok (set_props w props).
Proof.
  intros [Hc _]. split; cbn.
  - by apply StepPage_recomputed.
  - rewrite StepPage_again. by destruct (StepPage _ _).
Qed.

Lemma step_ok w ev : world_ok w → world_ok (step w ev).
Proof.
  intros Hok. destruct ev; cbn.
  - by apply run_handler_ok.
  - by apply run_handler_ok.
  - by apply run_handler_ok.
  - destruct (_ !! _); [by apply run_handler_ok|done].
  - by apply click_footer_ok.
  - by apply click_footer_ok.
  - by apply settle_ok.
  - by apply set_steps_ok.
  - by apply set_props_ok.
Qed.

Lemma run_ok w evs : world_ok w → world_ok (run w evs).
Proof.
  revert w. induction evs as [|ev evs IH]; intros w Hok; [done|].
  apply IH. by apply step_ok.
Qed.

Lemma init_ok props (sp : StepPagesProps Node) (fp : StepPageFooterProps Callback Node) :
  world_ok (init (Err:=Err) props sp fp).
Proof.
  unfold init. apply set_steps_ok. split.
  - exact (proj2 (StepPage_recomputed props (mount props) (cells_ok_mount props))).
  - cbn [w_props w_hooks w_ctx]. rewrite StepPage_again.
    by destruct (StepPage _ _).
Qed.

Lemma reachable_ok w : reachable w → world_ok w.
Proof. intros (props & sp & fp & evs & ->). apply run_ok, init_ok. Qed.

Lemma reachable_step w ev : reachable w → reachable (step w ev).
Proof.
  intros (props & sp & fp & evs & ->). exists props, sp, fp, (evs ++ [ev]).
  unfold run. by rewrite foldl_app.
Qed.

(** A handler without effects leaves a world at rest as it is. *)
Lemma perform_nil w : world_ok w → perform w [] [] = w.
Proof.
  intros [_ Hs]. unfold perform. cbn. rewrite Hs. cbn.
  rewrite !app_nil_r. by destruct w.
Qed.

(** ** The controller *)

Lemma recomputed_currentStep props h :
  currentStep (recomputed props h) = current props h.
Proof. done. Qed.

Lemma recomputed_totalSteps props h :
  totalSteps (recomputed props h) = totalStepsCell h.
Proof. done. Qed.

Lemma apply_effects_nil h : apply_effects h [] = h.
Proof. done. Qed.

(** C8: in every state of the controller, the context carries the current
    step and the step count of that state, canGoNext holds iff
    currentStep < totalSteps, and canGoPrev holds iff currentStep > 1; the
    memoised context value is never one of an earlier state. *)
Theorem canGo_derived_from_state props h :
  reachable_hooks h →
  let ctx := render props h in
  currentStep ctx = current props h ∧
  totalSteps ctx = totalStepsCell h ∧
  (canGoNext ctx = true ↔ currentStep ctx < totalSteps ctx) ∧
  (canGoPrev ctx = true ↔ currentStep ctx > 1).
Proof.
  intros Hr ctx. subst ctx. rewrite (render_recomputed _ _ Hr).
  cbn [recomputed value_of canGoNext canGoPrev currentStep totalSteps fst snd].
  split; [done|]. split; [done|]. split.
  - apply Z.ltb_lt.
  - rewrite Z.gtb_ltb, Z.ltb_lt. lia.
Qed.

(** C9: in every state of the controller, nextStep() does what
    goToStep(currentStep + 1) does and prevStep() does what
    goToStep(currentStep - 1) does: the same effects and the same
    completion. *)
Theorem nextStep_prevStep_are_goToStep props h :
  reachable_hooks h →
  let ctx := render props h in
  run_nextStep (nextStep ctx) = run_goToStep (goToStep ctx) (currentStep ctx + 1) ∧
  run_prevStep (prevStep ctx) = run_goToStep (goToStep ctx) (currentStep ctx - 1).
Proof.
  intros Hr ctx. subst ctx. rewrite (render_recomputed _ _ Hr). done.
Qed.

Lemma run_goToStep_out_of_range (f : GoToStepFn Callback) target :
  target < 1 ∨ target > g_totalSteps f → run_goToStep f target = ret tt.
Proof.
  intros Hout. unfold run_goToStep.
  destruct (target <? 1) eqn:E1; [done|].
  destruct (target >? g_totalSteps f) eqn:E2; [done|].
  apply Z.ltb_ge in E1. rewrite Z.gtb_ltb in E2. apply Z.ltb_ge in E2. lia.
Qed.

Lemma run_goToStep_in_range (f : GoToStepFn Callback) target :
  1 ≤ target ≤ g_totalSteps f →
  run_goToStep f target =
    if g_isControlled f then
      match g_onStepChange f with
      | Some cb => invoke cb target
      | None => ret tt
      end
    else emit (SetInternalStep target).
Proof.
  intros Hin. unfold run_goToStep.
  destruct (target <? 1) eqn:E1; [apply Z.ltb_lt in E1; lia|].
  destruct (target >? g_totalSteps f) eqn:E2; [|done].
  rewrite Z.gtb_ltb in E2. apply Z.ltb_lt in E2. lia.
Qed.

(** C1: goToStep(target) with target < 1 or target > totalSteps performs
    nothing and completes normally.  For a target in range, in controlled
    mode it calls the application's onStepChange with the target once and
    calls no state setter, so the cells and the current step stay as they
    are (without the optional callback it does nothing at all); in
    uncontrolled mode it performs setInternalStep(target) and the next
    render has currentStep = target. *)
Theorem goToStep_spec props h target :
  reachable_hooks h →
  let ctx := render props h in
  let m := run_goToStep (goToStep ctx) target in
  (target < 1 ∨ target > totalSteps ctx →
     m = ret tt ∧ apply_effects h m.1 = h) ∧
  (1 ≤ target ≤ totalSteps ctx →
     (∀ c, controlledStep props = Some c →
        (∀ cb, onStepChange props = Some cb →
           m.1 = [OnStepChange cb target]) ∧
        (onStepChange props = None → m = ret tt) ∧
        apply_effects h m.1 = h ∧
        currentStep (render props (apply_effects h m.1)) = c) ∧
     (controlledStep props = None →
        m = emit (SetInternalStep target) ∧
        currentStep (render props (apply_effects h m.1)) = target)).
Proof.
  intros Hr ctx m. subst m ctx. rewrite (render_recomputed _ _ Hr).
  cbn [recomputed value_of goToStep totalSteps fst snd].
  split.
  - intros Hout. rewrite run_goToStep_out_of_range by done. done.
  - intros Hin. rewrite run_goToStep_in_range by done.
    cbn [goToStep_of g_isControlled g_onStepChange fst snd].
    split.
    + intros c Hc. rewrite Hc.
      rewrite bool_decide_true by (by eexists).
      assert (∀ h', reachable_hooks h' → currentStep (render props h') = c) as Hcur.
      { intros h' Hr'. rewrite (render_recomputed _ _ Hr').
        rewrite recomputed_currentStep. unfold current. by rewrite Hc. }
      destruct (onStepChange props) as [cb|].
      * split; [by intros ? [= <-]|]. split; [done|]. split; [done|].
        by apply Hcur.
      * split; [done|]. split; [done|]. split; [done|]. by apply Hcur.
    + intros Hc. rewrite Hc.
      rewrite bool_decide_false by (by intros [? [=]]).
      split; [done|].
      rewrite render_recomputed by (by apply (reach_effect (SetInternalStep target))).
      rewrite recomputed_currentStep. unfold current. by rewrite Hc.
Qed.

(** C10: in uncontrolled mode the first render has currentStep =
    defaultStep, whatever integer defaultStep is, and so has the wizard
    once its step list is registered: nothing compares defaultStep with 1
    or with totalSteps. *)
Theorem defaultStep_not_clamped props d :
  controlledStep props = None →
  defaultStep props = Some d →
  currentStep (render props (mount props)) = d ∧
  ∀ (sp : StepPagesProps Node) (fp : StepPageFooterProps Callback Node),
    currentStep (w_ctx (init (Err:=Err) props sp fp)) = d.
Proof.
  intros Hc Hd. split.
  - rewrite render_recomputed by constructor.
    rewrite recomputed_currentStep. unfold current, mount. by rewrite Hc, Hd.
  - intros sp fp. rewrite (world_ok_ctx _ (init_ok props sp fp)).
    rewrite recomputed_currentStep. unfold current.
    replace (w_props (init props sp fp)) with props by done.
    rewrite Hc. unfold init, set_steps.
    cbn [w_hooks perform w_props].
    rewrite StepPage_internalStep.
    set (es := (StepPages_effect _ _).1).
    assert (∀ h0, internalStep (apply_effects h0 es) = internalStep h0) as ->.
    { subst es. unfold StepPages_effect. intros h0.
      destruct (decide _); [done|]. cbn. by destruct (setTotalSteps sp). }
    rewrite StepPage_internalStep. unfold mount. cbn. by rewrite Hd.
Qed.

(** ** What a call of goToStep can perform *)

Lemma run_goToStep_effects (f : GoToStepFn Callback) target :
  (run_goToStep f target).1 = [] ∨
  (∃ cb, (run_goToStep f target).1 = [OnStepChange cb target]) ∨
  ((run_goToStep f target).1 = [SetInternalStep target] ∧
   1 ≤ target ≤ g_totalSteps f).
Proof.
  destruct (decide (1 ≤ target ≤ g_totalSteps f)) as [Hin|Hout].
  - rewrite run_goToStep_in_range by done.
    destruct (g_isControlled f); [|by right; right].
    destruct (g_onStepChange f) as [cb|]; [|by left].
    right; left. by exists cb.
  - left. rewrite run_goToStep_out_of_range by lia. done.
Qed.

(** Case analysis on what [run_goToStep f target] performed. *)
Ltac goToStep_cases f target :=
  let cb := fresh "cb" in
  let Hin := fresh "Hin" in
  destruct (run_goToStep_effects f target) as [->|[[cb ->]|[-> Hin]]].

Lemma run_goToStep_loading (f : GoToStepFn Callback) target b :
  loading_after b (run_goToStep f target).1 = b.
Proof.
  goToStep_cases f target; done.
Qed.

Lemma run_goToStep_navigations (f : GoToStepFn Callback) target :
  navigations (run_goToStep f target).1 = [].
Proof.
  goToStep_cases f target; done.
Qed.

Lemma run_goToStep_totalStepsCell (f : GoToStepFn Callback) target h :
  totalStepsCell (apply_effects h (run_goToStep f target).1) = totalStepsCell h.
Proof.
  goToStep_cases f target; done.
Qed.


Lemma run_goToStep_internalStep (f : GoToStepFn Callback) target h :
  internalStep (apply_effects h (run_goToStep f target).1) = internalStep h ∨
  (internalStep (apply_effects h (run_goToStep f target).1) = target ∧
   1 ≤ target ≤ g_totalSteps f).
Proof.
  goToStep_cases f target; [by left|by left|by right].
Qed.

(** ** Content panes *)





(** ** Indicators *)

Lemma run_handler_ret w : world_ok w → run_handler w (ret tt) = w.
Proof. apply perform_nil. Qed.

(** C7: the indicator at 1-indexed position i has isCompleted = (i <
    currentStep), isActive = (i = currentStep) and isClickable = (i <=
    currentStep), and it is disabled exactly when it is not clickable.  A
    click on a clickable indicator does what goToStep(i) does; a click on
    an indicator that is not clickable leaves the whole state as it is. *)
Theorem indicator_spec w index ind :
  reachable w →
  StepPages (w_ctx w) (w_stepPages w) !! index = Some ind →
  let i := Z.of_nat index + 1 in
  stepNumber ind = i ∧
  isCompleted ind = (i <? currentStep (w_ctx w)) ∧
  isActive ind = (i =? currentStep (w_ctx w)) ∧
  isClickable ind = (i <=? currentStep (w_ctx w)) ∧
  disabled ind = negb (isClickable ind) ∧
  (isClickable ind = true →
     onClick ind = run_goToStep (goToStep (w_ctx w)) i ∧
     step w (EvClickIndicator index) = step w (EvGoToStep i)) ∧
  (isClickable ind = false →
     onClick ind = ret tt ∧
     step w (EvClickIndicator index) = w).
Proof.
  intros Hr Hlook i. cbn [step]. rewrite Hlook.
  unfold StepPages in Hlook. rewrite list_lookup_imap in Hlook.
  destruct (steps (w_stepPages w) !! index) as [sd|]; [|done].
  injection Hlook as <-. unfold click. cbn. fold i.
  do 5 (split; [done|]). split.
  - intros ->. done.
  - intros ->. split; [done|]. apply run_handler_ret, reachable_ok, Hr.
Qed.

(** ** Footer handlers *)

Lemma loading_after_app b (es es' : list (Effect Callback)) :
  loading_after b (es ++ es') = loading_after (loading_after b es) es'.
Proof. apply foldl_app. Qed.

Lemma navigations_app (es es' : list (Effect Callback)) :
  navigations (es ++ es') = navigations es ++ navigations es'.
Proof. unfold navigations. induction es as [|[] es IH]; cbn; by rewrite ?IH. Qed.


Lemma callback_calls_app (es es' : list (Effect Callback)) :
  callback_calls (es ++ es') = callback_calls es ++ callback_calls es'.
Proof. unfold callback_calls. induction es as [|[] es IH]; cbn; by rewrite ?IH. Qed.

Lemma try_finally_reset {A} (body : Handler Callback Err A) :
  try_finally body (emit (SetIsLoading false))
  = (body.1 ++ [SetIsLoading false], body.2).
Proof. by destruct body as [es [a|e]]. Qed.

Lemma after_await_unfold hook (commit : Handler Callback Err unit) s :
  after_await hook commit s
  = ((andThen (await hook s) commit).1 ++ [SetIsLoading false],
     (andThen (await hook s) commit).2).
Proof. apply try_finally_reset. Qed.

Lemma after_await_loading hook (commit : Handler Callback Err unit) s b :
  loading_after b (after_await hook commit s).1 = false.
Proof. rewrite after_await_unfold. cbn [fst]. by rewrite loading_after_app. Qed.

Lemma before_await_loading (hook : option Callback) b :
  loading_after b (before_await hook) = true.
Proof. by destruct hook. Qed.



Lemma await_rejected (hook : Callback) (e : Err) commit :
  after_await (Some hook) commit (Rejected e) = ([SetIsLoading false], Throw e).
Proof. done. Qed.

Lemma await_fulfilled (hook : option Callback) (commit : Handler Callback Err unit) :
  after_await hook commit Fulfilled
  = (commit.1 ++ [SetIsLoading false], commit.2).
Proof.
  rewrite after_await_unfold.
  replace (await hook Fulfilled) with (ret (Callback:=Callback) (Err:=Err) tt)
    by (by destruct hook).
  unfold andThen, bind, ret. by destruct commit.
Qed.



(** C3: when the hook of a footer handler fails, the handler does not
    reach its call of nextStep()/prevStep(), calls no state setter of the
    controller and no onStepChange, so the cells of the controller stay as
    they are; it completes by throwing the hook's failure; and after every
    complete run of a handler, whatever the hook's outcome, the footer's
    isLoading is false. *)
Theorem hook_failure_spec (p : StepPageFooterProps Callback Node) ctx hook (e : Err) :
  (onNext p = Some hook →
     handleNext p ctx (Rejected e)
     = ([SetIsLoading true; CallHook hook; SetIsLoading false], Throw e)) ∧
  (onPrev p = Some hook →
     handlePrev p ctx (Rejected e)
     = ([SetIsLoading true; CallHook hook; SetIsLoading false], Throw e)) ∧
  (∀ h, onNext p = Some hook →
     navigations (handleNext p ctx (Rejected e)).1 = [] ∧
     apply_effects h (handleNext p ctx (Rejected e)).1 = h) ∧
  (∀ h, onPrev p = Some hook →
     navigations (handlePrev p ctx (Rejected e)).1 = [] ∧
     apply_effects h (handlePrev p ctx (Rejected e)).1 = h) ∧
  (∀ s b, loading_after b (handleNext p ctx s).1 = false ∧
          loading_after b (handlePrev p ctx s).1 = false).
Proof.
  assert (onNext p = Some hook →
     handleNext p ctx (Rejected e)
     = ([SetIsLoading true; CallHook hook; SetIsLoading false], Throw e)) as HN.
  { intros E. unfold handleNext. rewrite E. by rewrite await_rejected. }
  assert (onPrev p = Some hook →
     handlePrev p ctx (Rejected e)
     = ([SetIsLoading true; CallHook hook; SetIsLoading false], Throw e)) as HP.
  { intros E. unfold handlePrev. rewrite E. by rewrite await_rejected. }
  split; [done|]. split; [done|]. split; [|split].
  - intros h E. by rewrite (HN E).
  - intros h E. by rewrite (HP E).
  - intros s b. unfold handleNext, handlePrev.
    destruct (after_await (onNext p) _ s) as [es c] eqn:E1.
    destruct (after_await (onPrev p) _ s) as [es' c'] eqn:E2.
    cbn [fst]. rewrite !loading_after_app.
    replace es with (after_await (onNext p) (commit_of Next (nextStep ctx)) s).1
      by (by rewrite E1).
    replace es' with (after_await (onPrev p) (commit_of Prev (prevStep ctx)) s).1
      by (by rewrite E2).
    by rewrite !after_await_loading.
Qed.

(** ** The footer in the transition system *)

Lemma perform_isLoading w es thrown :
  w_isLoading (perform w es thrown) = loading_after (w_isLoading w) es.
Proof. done. Qed.

Lemma perform_suspended w es thrown :
  w_suspended (perform w es thrown) = w_suspended w.
Proof. done. Qed.

Lemma perform_trace w es thrown :
  w_trace (perform w es thrown) = w_trace w ++ es.
Proof. done. Qed.

Lemma footer_ok_keep w w' :
  w_suspended w' = w_suspended w → w_isLoading w' = w_isLoading w →
  footer_state_ok w → footer_state_ok w'.
Proof. unfold footer_state_ok. by intros -> ->. Qed.

Lemma footer_ok_goToStep w (f : GoToStepFn Callback) target :
  footer_state_ok w → footer_state_ok (run_handler w (run_goToStep f target)).
Proof.
  apply footer_ok_keep; [done|].
  unfold run_handler. rewrite perform_isLoading. apply run_goToStep_loading.
Qed.

Lemma enabled_not_loading w d a :
  StepPageFooter (w_footer w) (w_ctx w) (w_isLoading w) = DefaultButtons a →
  (match d with Next => nextDisabled a | Prev => prevDisabled a end) = false →
  w_isLoading w = false.
Proof.
  unfold StepPageFooter. destruct (footerChildren _); [done|].
  destruct (default true _); [|done].
  intros [= <-]. destruct d; cbn; by intros [_ ?]%orb_false_iff.
Qed.

Lemma footer_ok_idle w :
  footer_state_ok w → w_isLoading w = false → w_suspended w = [].
Proof.
  unfold footer_state_ok. destruct (w_suspended w) as [|? [|]]; [done| |done].
  by intros ->.
Qed.

Lemma click_footer_footer_ok w d sync :
  footer_state_ok w → footer_state_ok (click_footer w d sync).
Proof.
  intros Hok. unfold click_footer.
  destruct (StepPageFooter _ _ _) as [?|a|] eqn:Ev; [done| |done].
  destruct (match d with Next => nextDisabled a | Prev => prevDisabled a end)
    eqn:Ed; [done|].
  pose proof (enabled_not_loading w d a Ev Ed) as Hl.
  pose proof (footer_ok_idle w Hok Hl) as Hs.
  set (hook := match d with Next => onNext _ | Prev => onPrev _ end).
  assert (∀ f, footer_state_ok
    (with_suspended (perform w (before_await hook) [])
       (w_suspended (perform w (before_await hook) []) ++
        [{| sus_direction := d; sus_hook := hook; sus_commit := f |}]))) as Hsus.
  { intros f. unfold footer_state_ok. cbn [w_suspended w_isLoading with_suspended].
    rewrite perform_suspended, Hs. cbn [app].
    rewrite perform_isLoading. apply before_await_loading. }
  destruct hook as [cb|] eqn:Eh; [destruct sync as [e|]|]; try apply Hsus.
  unfold footer_state_ok. rewrite perform_suspended, Hs, perform_isLoading.
  rewrite loading_after_app. apply after_await_loading.
Qed.

Lemma settle_footer_ok w i s :
  footer_state_ok w → footer_state_ok (settle w i s).
Proof.
  intros Hok. unfold settle.
  destruct (w_suspended w !! i) as [k|] eqn:Ek; [|done].
  assert (i = 0%nat ∧ w_suspended w = [k]) as [-> Hs].
  { unfold footer_state_ok in Hok.
    destruct (w_suspended w) as [|k' [|]]; [done| |done].
    destruct i; [by injection Ek as ->|done]. }
  assert (footer_state_ok
    (run_handler (with_suspended w (delete 0%nat (w_suspended w)))
       (after_await (sus_hook k)
          (commit_of (sus_direction k) (sus_commit k)) s))).
  { unfold footer_state_ok, run_handler.
    rewrite perform_suspended, perform_isLoading.
    cbn [with_suspended w_suspended]. rewrite Hs. cbn [delete list_delete].
    apply after_await_loading. }
  by destruct (sus_hook k), s.
Qed.

Lemma set_steps_footer_ok w l :
  footer_state_ok w → footer_state_ok (set_steps w l).
Proof.
  apply footer_ok_keep; [done|].
  unfold set_steps. cbn [w_isLoading]. rewrite perform_isLoading.
  unfold StepPages_effect. destruct (decide _); [done|].
  cbn. by destruct (setTotalSteps _).
Qed.

Lemma step_footer_ok w ev : footer_state_ok w → footer_state_ok (step w ev).
Proof.
  intros Hok. destruct ev; cbn [step].
  - by apply footer_ok_goToStep.
  - by apply footer_ok_goToStep.
  - by apply footer_ok_goToStep.
  - destruct (_ !! _) as [ind|] eqn:E; [|done].
    unfold StepPages in E. rewrite list_lookup_imap in E.
    destruct (steps _ !! _); [|done]. injection E as <-.
    unfold click. cbn.
    destruct (_ <=? _); cbn; [by apply footer_ok_goToStep|].
    revert Hok. by apply footer_ok_keep.
  - by apply click_footer_footer_ok.
  - by apply click_footer_footer_ok.
  - by apply settle_footer_ok.
  - by apply set_steps_footer_ok.
  - done.
Qed.

Lemma init_footer_ok props (sp : StepPagesProps Node)
    (fp : StepPageFooterProps Callback Node) :
  footer_state_ok (init (Err:=Err) props sp fp).
Proof. unfold init. by apply set_steps_footer_ok. Qed.

Lemma reachable_footer_ok w : reachable w → footer_state_ok w.
Proof.
  intros (props & sp & fp & evs & ->).
  generalize (init_footer_ok props sp fp).
  generalize (init (Err:=Err) props sp fp) as w. 
  induction evs as [|ev evs IH]; intros w Hok; [done|].
  apply IH. by apply step_footer_ok.
Qed.



Lemma run_app w evs evs' : run w (evs ++ evs') = run (run w evs) evs'.
Proof. apply foldl_app. Qed.


(** ** The shape of a transition *)

Section Shape.

Variable P : Effect Callback → Prop.
Hypothesis P_loading : ∀ b, P (SetIsLoading b).
Hypothesis P_hook : ∀ cb, P (CallHook cb).
Hypothesis P_navigate : ∀ d, P (Navigate d).

Lemma before_await_shape (hook : option Callback) :
  Forall P (before_await hook).
Proof. destruct hook; repeat constructor; auto. Qed.

Lemma commit_of_shape d (f : StepFn Callback) :
  (∀ t, Forall P (run_goToStep (s_goToStep f) t).1) →
  Forall P (commit_of d f).1.
Proof.
  intros Hf. unfold commit_of, andThen, bind, emit.
  destruct d; unfold run_nextStep, run_prevStep.
  - specialize (Hf (s_currentStep f + 1)).
    destruct (run_goToStep _ _) as [es c]. by constructor.
  - specialize (Hf (s_currentStep f - 1)).
    destruct (run_goToStep _ _) as [es c]. by constructor.
Qed.

Lemma after_await_shape hook (commit : Handler Callback Err unit) s :
  Forall P commit.1 → Forall P (after_await hook commit s).1.
Proof.
  intros Hc. rewrite after_await_unfold. cbn [fst].
  apply Forall_app. split; [|by repeat constructor].
  unfold andThen, bind. destruct (await hook s) as [es [[]|e]] eqn:E.
  - destruct commit as [es' c]. cbn.
    assert (es = []) as -> by (destruct hook, s; by injection E). done.
  - assert (es = []) as -> by (destruct hook, s; by injection E). done.
Qed.

Lemma perform_with_suspended w es thrown l :
  perform (with_suspended w l) es thrown = with_suspended (perform w es thrown) l.
Proof. done. Qed.

Lemma step_shape w ev :
  (∀ f t, live_closure w f → Forall P (run_goToStep f t).1) →
  is_handler_event ev →
  step w ev = w ∨
  ∃ es thrown l,
    step w ev = with_suspended (perform w es thrown) l ∧
    Forall P es ∧
    ∀ k, k ∈ l →
      k ∈ w_suspended w ∨
      sus_commit k = nextStep (w_ctx w) ∨ sus_commit k = prevStep (w_ctx w).
Proof.
  intros Hlive Hev.
  assert (∀ m : Handler Callback Err unit, Forall P m.1 →
    ∃ es thrown l,
      run_handler w m = with_suspended (perform w es thrown) l ∧
      Forall P es ∧
      ∀ k, k ∈ l →
        k ∈ w_suspended w ∨
        sus_commit k = nextStep (w_ctx w) ∨ sus_commit k = prevStep (w_ctx w))
    as Hrun.
  { intros m Hm. exists m.1, (thrown_by m.2), (w_suspended w).
    split; [done|]. split; [done|]. auto. }
  destruct ev; try done; cbn [step].
  - right. apply Hrun, Hlive. by left.
  - right. apply Hrun, Hlive. right; by left.
  - right. apply Hrun, Hlive. right; right; by left.
  - destruct (_ !! _) as [ind|] eqn:E; [|by left].
    right. apply Hrun.
    unfold StepPages in E. rewrite list_lookup_imap in E.
    destruct (steps _ !! _); [|done]. injection E as <-.
    unfold click. cbn. destruct (_ <=? _); cbn; [|done].
    apply Hlive. by left.
  - unfold click_footer.
    destruct (StepPageFooter _ _ _) as [?|a|]; [by left| |by left].
    destruct (nextDisabled a); [by left|]. right.
    destruct (onNext (w_footer w)) as [hook|] eqn:Eh; [destruct sync as [e|]|].
    + eexists _, _, (w_suspended w). split; [done|]. split; [|auto].
      apply Forall_app. split; [apply before_await_shape|].
      rewrite await_rejected. by repeat constructor.
    + eexists _, _, _. split; [done|]. split; [apply before_await_shape|].
      intros k [Hk|Hk%list_elem_of_singleton]%elem_of_app; [by left|].
      subst k. right; by left.
    + eexists _, _, _. split; [done|]. split; [apply before_await_shape|].
      intros k [Hk|Hk%list_elem_of_singleton]%elem_of_app; [by left|].
      subst k. right; by left.
  - unfold click_footer.
    destruct (StepPageFooter _ _ _) as [?|a|]; [by left| |by left].
    destruct (prevDisabled a); [by left|]. right.
    destruct (onPrev (w_footer w)) as [hook|] eqn:Eh; [destruct sync as [e|]|].
    + eexists _, _, (w_suspended w). split; [done|]. split; [|auto].
      apply Forall_app. split; [apply before_await_shape|].
      rewrite await_rejected. by repeat constructor.
    + eexists _, _, _. split; [done|]. split; [apply before_await_shape|].
      intros k [Hk|Hk%list_elem_of_singleton]%elem_of_app; [by left|].
      subst k. right; right; done.
    + eexists _, _, _. split; [done|]. split; [apply before_await_shape|].
      intros k [Hk|Hk%list_elem_of_singleton]%elem_of_app; [by left|].
      subst k. right; right; done.
  - unfold settle.
    destruct (w_suspended w !! i) as [k|] eqn:Ek; [|by left].
    assert (Forall P (after_await (sus_hook k)
              (commit_of (sus_direction k) (sus_commit k)) s).1) as Hes.
    { apply after_await_shape, commit_of_shape. intros t. apply Hlive.
      do 3 right. exists k. split; [|done]. by eapply list_elem_of_lookup_2. }
    assert (∃ es thrown l,
      run_handler (with_suspended w (delete i (w_suspended w)))
        (after_await (sus_hook k) (commit_of (sus_direction k) (sus_commit k)) s)
      = with_suspended (perform w es thrown) l ∧
      Forall P es ∧
      ∀ k, k ∈ l →
        k ∈ w_suspended w ∨
        sus_commit k = nextStep (w_ctx w) ∨ sus_commit k = prevStep (w_ctx w))
      as Hsettle.
    { eexists _, _, (delete i (w_suspended w)). split; [done|].
      split; [done|]. intros k' Hk'. left.
      eapply elem_of_sublist; [done|]. apply sublist_delete. }
    destruct (sus_hook k), s; auto.
Qed.

End Shape.

(** ** Registration of the step count *)

Lemma run_goToStep_keeps_total (f : GoToStepFn Callback) target :
  Forall keeps_total (run_goToStep f target).1.
Proof.
  goToStep_cases f target; by repeat constructor.
Qed.

Lemma apply_effects_keeps_total h es :
  Forall keeps_total es →
  totalStepsCell (apply_effects h es) = totalStepsCell h.
Proof.
  intros Hes. revert h. induction Hes as [|e es He _ IH]; intros h; [done|].
  change (apply_effects h (e :: es)) with (apply_effects (apply_effect h e) es).
  rewrite IH. by destruct e.
Qed.

Lemma perform_totalStepsCell w es thrown :
  Forall keeps_total es →
  totalStepsCell (w_hooks (perform w es thrown)) = totalStepsCell (w_hooks w).
Proof.
  intros Hes. cbn. rewrite StepPage_totalStepsCell.
  by apply apply_effects_keeps_total.
Qed.

Lemma perform_hooks w es thrown :
  w_hooks (perform w es thrown)
  = (StepPage (w_props w) (apply_effects (w_hooks w) es)).2.
Proof. done. Qed.

Lemma set_steps_same_length w l :
  world_ok w → registration_ok w →
  length l = length (steps (w_stepPages w)) →
  (StepPages_effect (Callback:=Callback) (w_effectDeps w)
     {| steps := l; setTotalSteps := setTotalSteps (w_stepPages w) |}).1 = [] ∧
  set_steps w l = with_steps w l.
Proof.
  intros Hok [Hdeps _] Hlen.
  assert (StepPages_effect (Callback:=Callback) (w_effectDeps w)
     {| steps := l; setTotalSteps := setTotalSteps (w_stepPages w) |}
     = ([], w_effectDeps w)) as E.
  { unfold StepPages_effect. cbn [steps setTotalSteps].
    rewrite decide_True; [done|]. by rewrite Hdeps, Hlen. }
  split; [by rewrite E|].
  unfold set_steps. rewrite E. cbn [fst snd].
  by rewrite (perform_nil w Hok).
Qed.

Lemma set_steps_registration_ok w l :
  registration_ok w → registration_ok (set_steps w l).
Proof.
  intros [Hdeps Htot]. unfold registration_ok, set_steps.
  cbn [w_effectDeps w_stepPages w_hooks steps setTotalSteps].
  unfold StepPages_effect. cbn [steps setTotalSteps].
  destruct (decide _) as [E|E].
  - split; [done|]. cbn [fst]. rewrite perform_totalStepsCell by done.
    rewrite Htot. rewrite Hdeps in E. by injection E as ->.
  - split; [done|]. cbn [fst snd].
    destruct (setTotalSteps (w_stepPages w)).
    + by rewrite perform_hooks, StepPage_totalStepsCell.
    + by rewrite perform_totalStepsCell.
Qed.

Lemma step_registration_ok w ev :
  registration_ok w → registration_ok (step w ev).
Proof.
  intros Hreg.
  assert (is_handler_event ev → registration_ok (step w ev)) as Hh.
  { intros Hev.
    destruct (step_shape keeps_total) with (w := w) (ev := ev)
      as [->|(es & thrown & l & -> & Hes & _)]; try done.
    { intros. apply run_goToStep_keeps_total. }
    destruct Hreg as [Hdeps Htot]. split; [done|].
    cbn [with_suspended w_hooks w_stepPages].
    by rewrite perform_totalStepsCell. }
  destruct ev; try (by apply Hh); cbn [step].
  - by apply set_steps_registration_ok.
  - destruct Hreg as [Hdeps Htot]. split; [done|].
    cbn. by rewrite StepPage_totalStepsCell.
Qed.

Lemma init_registration_ok props (sp : StepPagesProps Node)
    (fp : StepPageFooterProps Callback Node) :
  registration_ok (init (Err:=Err) props sp fp).
Proof.
  unfold registration_ok, init, set_steps.
  cbn [w_effectDeps w_stepPages w_hooks steps setTotalSteps].
  unfold StepPages_effect. rewrite decide_False by done. cbn [fst snd].
  destruct sp as [l []]; cbn [steps setTotalSteps]; (split; [done|]).
  - by rewrite perform_hooks, StepPage_totalStepsCell.
  - rewrite perform_totalStepsCell by done. cbn [w_hooks].
    by rewrite StepPage_totalStepsCell.
Qed.

Lemma reachable_registration_ok w : reachable w → registration_ok w.
Proof.
  intros (props & sp & fp & evs & ->).
  generalize (init_registration_ok props sp fp).
  generalize (init (Err:=Err) props sp fp) as w.
  induction evs as [|ev evs IH]; intros w Hok; [done|].
  apply IH. by apply step_registration_ok.
Qed.

(** C5: in every state of a wizard whose step list receives the setter,
    totalSteps is the length of the step list, whatever that length is,
    and so it is after the list is rendered anew with any number of
    entries; rendering a list of the same length again does not run the
    effect and changes nothing but the list itself. *)
Theorem registration_spec w :
  reachable w →
  setTotalSteps (w_stepPages w) = true →
  totalSteps (w_ctx w) = Z.of_nat (length (steps (w_stepPages w))) ∧
  (∀ l, totalSteps (w_ctx (set_steps w l)) = Z.of_nat (length l)) ∧
  (∀ l, length l = length (steps (w_stepPages w)) →
     (StepPages_effect (Callback:=Callback) (w_effectDeps w)
        {| steps := l; setTotalSteps := setTotalSteps (w_stepPages w) |}).1 = [] ∧
     set_steps w l = with_steps w l).
Proof.
  intros Hr Hset.
  assert (∀ w', reachable w' → setTotalSteps (w_stepPages w') = true →
    totalSteps (w_ctx w') = Z.of_nat (length (steps (w_stepPages w')))) as Htot.
  { intros w' Hr' Hset'.
    rewrite (world_ok_ctx w' (reachable_ok w' Hr')), recomputed_totalSteps.
    destruct (reachable_registration_ok w' Hr') as [_ ->]. by rewrite Hset'. }
  split; [by apply Htot|]. split.
  - intros l. apply (Htot (step w (EvSteps l))); [by apply reachable_step|done].
  - intros l. apply set_steps_same_length;
      [by apply reachable_ok|by apply reachable_registration_ok].
Qed.

(** A step list that does not receive the setter is never registered: the
    step count stays at its initial 0 and every goToStep is ignored. *)
Lemma unregistered_step_list w target :
  reachable w →
  setTotalSteps (w_stepPages w) = false →
  totalSteps (w_ctx w) = 0 ∧
  run_goToStep (goToStep (w_ctx w)) target = ret tt.
Proof.
  intros Hr Hset.
  rewrite (world_ok_ctx w (reachable_ok w Hr)).
  cbn [recomputed value_of totalSteps goToStep fst snd].
  destruct (reachable_registration_ok w Hr) as [_ Htot].
  rewrite Hset in Htot. split; [done|].
  apply run_goToStep_out_of_range. cbn. lia.
Qed.

(** The root hands the setter to a step list that is its direct child. *)
Lemma direct_child_receives_setter (sp : StepPagesProps Node) current :
  mounted_StepPages current (cloneElement_setTotalSteps (EStepPages sp))
  = [{| steps := steps sp; setTotalSteps := true |}].
Proof. done. Qed.

(** A step list inside the header keeps the props it was written with: the
    setter handed to the header is dropped there. *)
Lemma header_child_keeps_props (sp : StepPagesProps Node) current :
  mounted_StepPages current
    (cloneElement_setTotalSteps (EStepPageHeader [EStepPages sp]))
  = [sp].
Proof. done. Qed.

Lemma mount_tree_direct props (l : list (StepItemData Node)) b :
  totalStepsCell
    (mount_tree props [EStepPages {| steps := l; setTotalSteps := b |}])
  = Z.of_nat (length l).
Proof.
  unfold mount_tree.
  set (es := flat_map _ _).
  assert (es = [SetTotalSteps (Z.of_nat (length l))]) as -> by done.
  done.
Qed.

Lemma mount_tree_in_header props (l : list (StepItemData Node)) :
  totalStepsCell
    (mount_tree props
       [EStepPageHeader [EStepPages {| steps := l; setTotalSteps := false |}]])
  = 0.
Proof.
  unfold mount_tree.
  set (es := flat_map _ _).
  assert (es = []) as -> by done.
  by rewrite apply_effects_nil, StepPage_totalStepsCell.
Qed.

(** ** Bounds of the current step *)





Lemma live_closure_total w f total :
  world_ok w →
  totalStepsCell (w_hooks w) = total →
  Forall (λ k, g_totalSteps (s_goToStep (sus_commit k)) = total) (w_suspended w) →
  live_closure w f → g_totalSteps f = total.
Proof.
  intros Hok Htot Hsus Hlive. unfold live_closure in Hlive.
  rewrite (world_ok_ctx w Hok) in Hlive.
  destruct Hlive as [->|[->|[->|(k & Hk & ->)]]]; try done.
  rewrite Forall_forall in Hsus. by apply Hsus.
Qed.



(** ** Footer handlers in the transition system *)

Lemma handleNext_effects (p : StepPageFooterProps Callback Node) ctx s :
  (handleNext p ctx s).1
  = before_await (onNext p)
    ++ (after_await (onNext p) (commit_of Next (nextStep ctx)) s).1.
Proof. unfold handleNext. by destruct (after_await _ _ _). Qed.

(** A click on the enabled next button followed by the settling of the
    hook performs the effects of a complete run of [handleNext] with the
    context of the render in which the button was clicked. *)
Lemma click_then_settle_is_handleNext w a s :
  reachable w →
  StepPageFooter (w_footer w) (w_ctx w) (w_isLoading w) = DefaultButtons a →
  nextDisabled a = false →
  (onNext (w_footer w) = None → s = Fulfilled) →
  w_trace (run w [EvClickNext None; EvSettle 0 s])
  = w_trace w ++ (handleNext (w_footer w) (w_ctx w) s).1.
Proof.
  intros Hr Ev Ed Hs. rewrite handleNext_effects.
  pose proof (enabled_not_loading w Next a Ev Ed) as Hl.
  pose proof (footer_ok_idle w (reachable_footer_ok w Hr) Hl) as Hsus.
  cbn [run foldl step].
  set (hook := onNext (w_footer w)) in *.
  set (k := {| sus_direction := Next; sus_hook := hook;
               sus_commit := nextStep (w_ctx w) |}).
  assert (click_footer w Next None
          = with_suspended (perform w (before_await hook) []) [k]) as ->.
  { unfold click_footer. rewrite Ev, Ed. fold hook.
    rewrite perform_suspended, Hsus. by destruct hook. }
  unfold settle.
  change (w_suspended (with_suspended (perform w (before_await hook) []) [k])
            !! 0%nat) with (Some k).
  subst k. cbn [sus_hook sus_direction sus_commit].
  assert (∀ w1 w2 : World Callback Err Node,
            match hook, s with
            | None, Rejected _ => w1
            | _, _ => w2
            end = w2) as ->.
  { intros. destruct hook, s; try done. by specialize (Hs eq_refl). }
  unfold run_handler. rewrite perform_trace. cbn [with_suspended w_trace].
  rewrite perform_trace. by rewrite app_assoc.
Qed.

(** The failure of a hook in the transition system: the handler that
    resumes with a rejection leaves the controller as it is, surfaces the
    failure and returns the footer to idle. *)
Lemma settle_rejected w i k hook (e : Err) :
  reachable w →
  w_suspended w !! i = Some k →
  sus_hook k = Some hook →
  let w' := settle w i (Rejected e) in
  w_hooks w' = w_hooks w ∧
  w_ctx w' = w_ctx w ∧
  navigations (w_trace w') = navigations (w_trace w) ∧
  w_thrown w' = w_thrown w ++ [e] ∧
  w_isLoading w' = false.
Proof.
  intros Hr Ek Eh w'. subst w'. unfold settle. rewrite Ek, Eh.
  rewrite await_rejected. unfold run_handler. cbn [fst snd thrown_by].
  destruct (reachable_ok w Hr) as [_ Hs].
  unfold perform. cbn [with_suspended w_props w_hooks w_isLoading w_trace
                       w_thrown w_ctx].
  change (apply_effects (w_hooks w) [SetIsLoading false]) with (w_hooks w).
  rewrite Hs. cbn [fst snd]. split; [done|]. split; [done|].
  split; [|done]. rewrite navigations_app. cbn. by rewrite app_nil_r.
Qed.

(** ** Navigation in the transition system *)

Lemma run_handler_ctx w (m : Handler Callback Err unit) :
  world_ok w →
  w_ctx (run_handler w m)
  = recomputed (w_props w) (apply_effects (w_hooks w) m.1).
Proof. intros [Hc _]. by apply perform_ctx. Qed.

Lemma world_totalSteps w :
  world_ok w → totalSteps (w_ctx w) = totalStepsCell (w_hooks w).
Proof. intros Hok. by rewrite (world_ok_ctx w Hok). Qed.

Lemma world_currentStep w :
  world_ok w → currentStep (w_ctx w) = current (w_props w) (w_hooks w).
Proof. intros Hok. by rewrite (world_ok_ctx w Hok). Qed.

(** A call of a goToStep function created in an uncontrolled render. *)
Lemma handler_goToStep w (f : GoToStepFn Callback) target :
  world_ok w →
  controlledStep (w_props w) = None →
  g_isControlled f = false →
  currentStep (w_ctx (run_handler w (run_goToStep f target)))
  = (if decide (accepted (g_totalSteps f) target) then target
     else currentStep (w_ctx w)) ∧
  totalSteps (w_ctx (run_handler w (run_goToStep f target)))
  = totalSteps (w_ctx w) ∧
  w_props (run_handler w (run_goToStep f target)) = w_props w.
Proof.
  intros Hok Hun Hf. rewrite (run_handler_ctx w _ Hok).
  rewrite recomputed_currentStep, recomputed_totalSteps.
  rewrite run_goToStep_totalStepsCell, (world_totalSteps w Hok).
  rewrite (world_currentStep w Hok). unfold current. rewrite Hun.
  split; [|done].
  destruct (decide (accepted (g_totalSteps f) target)) as [Hin|Hout].
  - rewrite run_goToStep_in_range by done. by rewrite Hf.
  - rewrite run_goToStep_out_of_range; [done|]. unfold accepted in Hout. lia.
Qed.

Lemma world_closures w :
  world_ok w →
  goToStep (w_ctx w)
  = goToStep_of (bool_decide (is_Some (controlledStep (w_props w))),
                 onStepChange (w_props w), totalStepsCell (w_hooks w)) ∧
  nextStep (w_ctx w)
  = stepFn_of (currentStep (w_ctx w), goToStep (w_ctx w)) ∧
  prevStep (w_ctx w)
  = stepFn_of (currentStep (w_ctx w), goToStep (w_ctx w)).
Proof. intros Hok. by rewrite (world_ok_ctx w Hok). Qed.

Lemma world_goToStep_uncontrolled w :
  world_ok w → controlledStep (w_props w) = None →
  g_isControlled (goToStep (w_ctx w)) = false ∧
  g_totalSteps (goToStep (w_ctx w)) = totalSteps (w_ctx w).
Proof.
  intros Hok Hun. destruct (world_closures w Hok) as (-> & _ & _).
  rewrite (world_totalSteps w Hok). cbn. by rewrite Hun.
Qed.

Lemma step_goToStep w target :
  reachable w →
  controlledStep (w_props w) = None →
  currentStep (w_ctx (step w (EvGoToStep target)))
  = (if decide (accepted (totalSteps (w_ctx w)) target) then target
     else currentStep (w_ctx w)) ∧
  totalSteps (w_ctx (step w (EvGoToStep target))) = totalSteps (w_ctx w) ∧
  w_props (step w (EvGoToStep target)) = w_props w.
Proof.
  intros Hr Hun. pose proof (reachable_ok w Hr) as Hok.
  destruct (world_goToStep_uncontrolled w Hok Hun) as [Hf Ht].
  cbn [step].
  pose proof (handler_goToStep w (goToStep (w_ctx w)) target Hok Hun Hf) as Hg.
  by rewrite Ht in Hg.
Qed.



(** X1: canGoNext and canGoPrev tell when the navigation functions act.
    With canGoNext false, nextStep() does nothing, and with canGoPrev false,
    prevStep() does nothing, in every state.  With canGoNext true and
    currentStep >= 0, an uncontrolled nextStep() performs
    setInternalStep(currentStep + 1); with canGoPrev true and currentStep <=
    totalSteps + 1, an uncontrolled prevStep() performs
    setInternalStep(currentStep - 1). *)
Theorem flags_tell_navigation props h :
  reachable_hooks h →
  let ctx := render props h in
  (canGoNext ctx = false → run_nextStep (nextStep ctx) = ret tt) ∧
  (canGoPrev ctx = false → run_prevStep (prevStep ctx) = ret tt) ∧
  (canGoNext ctx = true → 0 ≤ currentStep ctx → controlledStep props = None →
     run_nextStep (nextStep ctx) = emit (SetInternalStep (currentStep ctx + 1))) ∧
  (canGoPrev ctx = true → currentStep ctx ≤ totalSteps ctx + 1 →
     controlledStep props = None →
     run_prevStep (prevStep ctx) = emit (SetInternalStep (currentStep ctx - 1))).
Proof.
  intros Hr ctx. subst ctx. rewrite (render_recomputed _ _ Hr).
  unfold run_nextStep, run_prevStep.
  cbn [recomputed value_of stepFn_of goToStep_of nextStep prevStep canGoNext
       canGoPrev currentStep totalSteps s_goToStep s_currentStep fst snd].
  split; [|split; [|split]].
  - intros E%Z.ltb_ge. apply run_goToStep_out_of_range. cbn. lia.
  - rewrite Z.gtb_ltb. intros E%Z.ltb_ge. apply run_goToStep_out_of_range. lia.
  - intros E%Z.ltb_lt Hpos Hun. rewrite run_goToStep_in_range by (cbn; lia).
    cbn. rewrite Hun. by rewrite bool_decide_false by (by intros [? [=]]).
  - rewrite Z.gtb_ltb. intros E%Z.ltb_lt Hle Hun.
    rewrite run_goToStep_in_range by (cbn; lia).
    cbn. rewrite Hun. by rewrite bool_decide_false by (by intros [? [=]]).
Qed.





Lemma run_goToSteps_state w (targets : list Z) :
  reachable w →
  controlledStep (w_props w) = None →
  reachable (run w (EvGoToStep <$> targets)) ∧
  w_props (run w (EvGoToStep <$> targets)) = w_props w ∧
  totalSteps (w_ctx (run w (EvGoToStep <$> targets))) = totalSteps (w_ctx w) ∧
  currentStep (w_ctx (run w (EvGoToStep <$> targets)))
  = default (currentStep (w_ctx w))
      (last (filter (accepted (totalSteps (w_ctx w))) targets)).
Proof.
  intros Hr Hun. induction targets as [|t targets IH] using rev_ind.
  - done.
  - destruct IH as (Hr' & Hp & Ht & Hc).
    rewrite fmap_app, run_app. cbn [fmap list_fmap].
    change (run (run w (EvGoToStep <$> targets)) [EvGoToStep t])
      with (step (run w (EvGoToStep <$> targets)) (EvGoToStep t)).
    destruct (step_goToStep (run w (EvGoToStep <$> targets)) t Hr')
      as (Hc1 & Ht1 & Hp1); [by rewrite Hp|].
    split; [by apply reachable_step|]. split; [by rewrite Hp1|].
    split; [by rewrite Ht1|].
    rewrite Hc1, Ht, Hc, filter_app, filter_cons, filter_nil.
    destruct (decide (accepted (totalSteps (w_ctx w)) t)).
    + by rewrite last_snoc.
    + by rewrite app_nil_r.
Qed.

(** X4: in uncontrolled mode, after a sequence of goToStep calls the
    current step is the last target of the sequence that lies in
    [1, totalSteps], and the step before the sequence when there is none:
    rejected targets leave no trace. *)
Theorem last_accepted_target_wins w (targets : list Z) :
  reachable w →
  controlledStep (w_props w) = None →
  currentStep (w_ctx (run w (EvGoToStep <$> targets)))
  = default (currentStep (w_ctx w))
      (last (filter (accepted (totalSteps (w_ctx w))) targets)).
Proof. intros Hr Hun. by apply run_goToSteps_state. Qed.

(** ** A step list without the setter *)

Lemma quiet_keeps_total (es : list (Effect Callback)) :
  Forall quiet es → Forall keeps_total es.
Proof. intros Hes. eapply Forall_impl; [done|]. by intros []. Qed.

Lemma quiet_internalStep h (es : list (Effect Callback)) :
  Forall quiet es → internalStep (apply_effects h es) = internalStep h.
Proof.
  intros Hes. revert h. induction Hes as [|e es He _ IH]; intros h; [done|].
  change (apply_effects h (e :: es)) with (apply_effects (apply_effect h e) es).
  rewrite IH. by destruct e.
Qed.

Lemma quiet_step_writes (es : list (Effect Callback)) :
  Forall quiet es → step_writes es = [] ∧ callback_calls es = [].
Proof.
  induction 1 as [|e es He _ [IH1 IH2]]; [done|].
  unfold step_writes, callback_calls in *. by destruct e; cbn; rewrite ?IH1, ?IH2.
Qed.

Lemma StepPages_effect_without_setter prev (l : list (StepItemData Node)) :
  (StepPages_effect (Callback:=Callback) prev
     {| steps := l; setTotalSteps := false |}).1 = [].
Proof. unfold StepPages_effect. by destruct (decide _). Qed.

Lemma step_unregistered_inv props0 step0 w ev :
  reachable w →
  unregistered_inv props0 step0 w →
  keeps_props ev →
  unregistered_inv props0 step0 (step w ev).
Proof.
  intros Hr (Hp & Htot & Hint & Hset & Htr & Hsus) Hev.
  pose proof (reachable_ok w Hr) as Hok.
  assert (is_handler_event ev → unregistered_inv props0 step0 (step w ev)) as Hh.
  { intros Hhe.
    destruct (step_shape quiet) with (w := w) (ev := ev)
      as [->|(es & thrown & l & -> & Hes & Hl)]; try done.
    { intros f t Hlive.
      rewrite run_goToStep_out_of_range; [done|].
      rewrite (live_closure_total w f 0 Hok Htot Hsus Hlive). lia. }
    split; [done|]. split; [|split; [|split; [done|split]]].
    - cbn [with_suspended w_hooks].
      by rewrite perform_totalStepsCell by (by apply quiet_keeps_total).
    - cbn [with_suspended w_hooks]. rewrite perform_hooks, StepPage_internalStep.
      by rewrite quiet_internalStep.
    - cbn [with_suspended w_trace]. rewrite perform_trace.
      by apply Forall_app.
    - cbn [with_suspended w_suspended]. apply Forall_forall. intros k Hk.
      destruct (Hl k Hk) as [Hold|[->| ->]].
      + rewrite Forall_forall in Hsus. by apply Hsus.
      + apply (live_closure_total w _ 0 Hok Htot Hsus). right; by left.
      + apply (live_closure_total w _ 0 Hok Htot Hsus). right; right; by left. }
  destruct ev; try (by apply Hh). cbn [step].
  unfold set_steps. rewrite Hset.
  rewrite StepPages_effect_without_setter, (perform_nil w Hok).
  done.
Qed.

(** X5: a wizard whose step list does not receive the setter (a step list
    written inside the header, for one) never leaves the step it mounted
    with, whatever is clicked or called, as long as the application does not
    supply a new controlled step: the step count stays 0, the current step
    stays what it was, and neither setInternalStep nor onStepChange is ever
    called. *)
Theorem unregistered_wizard_never_moves props (sp : StepPagesProps Node)
    (fp : StepPageFooterProps Callback Node) evs :
  setTotalSteps sp = false →
  Forall keeps_props evs →
  totalSteps (w_ctx (run (init (Err:=Err) props sp fp) evs)) = 0 ∧
  currentStep (w_ctx (run (init (Err:=Err) props sp fp) evs))
  = currentStep (w_ctx (init (Err:=Err) props sp fp)) ∧
  step_writes (w_trace (run (init (Err:=Err) props sp fp) evs)) = [] ∧
  callback_calls (w_trace (run (init (Err:=Err) props sp fp) evs)) = [].
Proof.
  intros Hset Hevs. set (w0 := init (Err:=Err) props sp fp).
  assert (reachable w0) as Hr0 by (by exists props, sp, fp, []).
  assert (unregistered_inv props (internalStep (w_hooks w0)) w0) as H0.
  { split; [done|]. split; [|split; [done|split; [done|split; [|done]]]].
    - destruct (init_registration_ok props sp fp) as [_ Ht0].
      fold w0 in Ht0. rewrite Ht0.
      replace (setTotalSteps (w_stepPages w0)) with (setTotalSteps sp) by done.
      by rewrite Hset.
    - subst w0. unfold init, set_steps. cbn [w_trace perform].
      destruct sp as [l b]. cbn in Hset. subst b.
      cbn [steps setTotalSteps w_stepPages].
      by rewrite StepPages_effect_without_setter. }
  assert (reachable (run w0 evs) ∧
          unregistered_inv props (internalStep (w_hooks w0)) (run w0 evs))
    as [Hr (Hp & Htot & Hint & _ & Htr & _)].
  { revert Hevs. induction evs as [|ev evs IH] using rev_ind; intros Hevs;
      [by split|].
    apply Forall_app in Hevs as [Hevs Hev%Forall_inv].
    destruct (IH Hevs) as [Hr HJ]. rewrite run_app.
    change (run (run w0 evs) [ev]) with (step (run w0 evs) ev).
    split; [by apply reachable_step|]. by apply step_unregistered_inv. }
  pose proof (reachable_ok _ Hr) as Hok.
  pose proof (reachable_ok _ Hr0) as Hok0.
  split; [by rewrite (world_totalSteps _ Hok)|].
  split; [|by apply quiet_step_writes].
  rewrite (world_currentStep _ Hok), (world_currentStep _ Hok0), Hp.
  unfold current. replace (w_props w0) with props by done. by rewrite Hint.
Qed.

Lemma set_steps_currentStep w (l : list (StepItemData Node)) :
  reachable w →
  currentStep (w_ctx (set_steps w l)) = currentStep (w_ctx w).
Proof.
  intros Hr. pose proof (reachable_ok w Hr) as Hok.
  assert (reachable (step w (EvSteps l))) as Hr' by (by apply reachable_step).
  pose proof (reachable_ok _ Hr') as Hok'. cbn [step] in Hok'.
  rewrite (world_currentStep _ Hok'), (world_currentStep w Hok).
  unfold current. replace (w_props (set_steps w l)) with (w_props w) by done.
  destruct (controlledStep (w_props w)); [done|].
  unfold set_steps. cbn [w_hooks]. rewrite perform_hooks, StepPage_internalStep.
  unfold StepPages_effect. destruct (decide _); [done|].
  cbn [fst]. by destruct (setTotalSteps _).
Qed.

(** X6: rendering a new step list never changes the current step.  When a
    registered list becomes shorter than the current step, the wizard keeps
    that step: next is not available and no indicator of the new list is
    active. *)
Theorem new_step_list_keeps_current_step w (l : list (StepItemData Node)) :
  reachable w →
  currentStep (w_ctx (set_steps w l)) = currentStep (w_ctx w) ∧
  (setTotalSteps (w_stepPages w) = true →
   Z.of_nat (length l) < currentStep (w_ctx w) →
   canGoNext (w_ctx (set_steps w l)) = false ∧
   ∀ ind, ind ∈ StepPages (Err:=Err) (w_ctx (set_steps w l))
                  (w_stepPages (set_steps w l)) →
          isActive ind = false).
Proof.
  intros Hr. pose proof (set_steps_currentStep w l Hr) as Hc.
  split; [done|]. intros Hset Hlt.
  assert (reachable (step w (EvSteps l))) as Hr' by (by apply reachable_step).
  pose proof (reachable_ok _ Hr') as Hok'. cbn [step] in Hr', Hok'.
  destruct (reachable_registration_ok _ Hr') as [_ Htot].
  replace (setTotalSteps (w_stepPages (set_steps w l)))
    with (setTotalSteps (w_stepPages w)) in Htot by done.
  rewrite Hset in Htot.
  replace (steps (w_stepPages (set_steps w l))) with l in Htot by done.
  split.
  - rewrite (world_ok_ctx _ Hok').
    cbn [recomputed value_of canGoNext fst snd].
    fold (current (w_props (set_steps w l)) (w_hooks (set_steps w l))).
    rewrite <- (world_currentStep _ Hok'), Hc, Htot. apply Z.ltb_ge.
    change (steps (w_stepPages (set_steps w l))) with l. lia.
  - intros ind Hin. apply list_elem_of_lookup in Hin as [index Hlook].
    unfold StepPages in Hlook. rewrite list_lookup_imap in Hlook.
    destruct (steps _ !! index) as [sd|] eqn:Esd; [|done].
    injection Hlook as <-. cbn [isActive].
    apply lookup_lt_Some in Esd.
    replace (steps (w_stepPages (set_steps w l))) with l in Esd by done.
    change (StepPage _ _).1 with (w_ctx (set_steps w l)).
    rewrite Hc. apply Z.eqb_neq. lia.
Qed.

(** ** The indicator list as a whole *)

Lemma fmap_seq_const {B} (g : nat → B) b j n :
  (∀ i, (j ≤ i < j + n)%nat → g i = b) → g <$> seq j n = replicate n b.
Proof.
  revert j. induction n as [|n IH]; intros j Hg; [done|].
  cbn. rewrite (Hg j) by lia. f_equal. apply IH. intros i Hi. apply Hg. lia.
Qed.

Lemma prefix_flags (g : nat → bool) n m :
  (m ≤ n)%nat →
  (∀ i, (i < n)%nat → g i = true ↔ (i < m)%nat) →
  g <$> seq 0 n = replicate m true ++ replicate (n - m) false.
Proof.
  intros Hm Hg. replace n with (m + (n - m))%nat at 1 by lia.
  rewrite seq_app, fmap_app. f_equal.
  - apply fmap_seq_const. intros i Hi. apply Hg; lia.
  - apply fmap_seq_const. intros i Hi.
    destruct (g i) eqn:E; [|done]. apply Hg in E; lia.
Qed.

Lemma single_flag (g : nat → bool) n k :
  (k < n)%nat →
  (∀ i, (i < n)%nat → g i = true ↔ i = k) →
  g <$> seq 0 n = replicate k false ++ [true] ++ replicate (n - S k) false.
Proof.
  intros Hk Hg. replace n with (k + (1 + (n - S k)))%nat at 1 by lia.
  rewrite !seq_app, !fmap_app. f_equal; [|f_equal].
  - apply fmap_seq_const. intros i Hi.
    destruct (g i) eqn:E; [|done]. apply Hg in E; lia.
  - cbn. f_equal. apply Hg; lia.
  - apply fmap_seq_const. intros i Hi.
    destruct (g i) eqn:E; [|done]. apply Hg in E; lia.
Qed.

Lemma StepPages_fmap {B} (proj : Indicator Callback Err Node → B)
    (g : nat → B) ctx (sp : StepPagesProps Node) :
  (∀ index ind, StepPages ctx sp !! index = Some ind → proj ind = g index) →
  proj <$> StepPages ctx sp = g <$> seq 0 (length (steps sp)).
Proof.
  intros Hg. apply list_eq. intros i.
  rewrite !list_lookup_fmap.
  destruct (StepPages ctx sp !! i) as [ind|] eqn:E.
  - rewrite lookup_seq_lt.
    + cbn. f_equal. by apply Hg.
    + apply lookup_lt_Some in E. unfold StepPages in E.
      by rewrite length_imap in E.
  - rewrite lookup_seq_ge; [done|].
    apply lookup_ge_None in E. unfold StepPages in E.
    by rewrite length_imap in E.
Qed.

Lemma StepPages_lookup ctx (sp : StepPagesProps Node) index
    (ind : Indicator Callback Err Node) :
  StepPages ctx sp !! index = Some ind →
  (index < length (steps sp))%nat ∧
  stepNumber ind = Z.of_nat index + 1 ∧
  isActive ind = (Z.of_nat index + 1 =? currentStep ctx) ∧
  isCompleted ind = (Z.of_nat index + 1 <? currentStep ctx) ∧
  isClickable ind = (Z.of_nat index + 1 <=? currentStep ctx) ∧
  connector ind
  = (if Z.of_nat index + 1 <? Z.of_nat (length (steps sp))
     then Some (Z.of_nat index + 1 <? currentStep ctx) else None).
Proof.
  intros E. unfold StepPages in E. rewrite list_lookup_imap in E.
  destruct (steps sp !! index) as [sd|] eqn:Esd; [|done].
  injection E as <-. split; [by eapply lookup_lt_Some|]. done.
Qed.

(** X7: the indicator list has one entry per step, numbered 1, 2, ..., n.
    The completed entries are the first min(currentStep - 1, n) ones and
    the clickable entries the first min(currentStep, n) ones (none when
    currentStep < 1); exactly the entry numbered currentStep is active when
    1 <= currentStep <= n, and no entry is active otherwise. *)
Theorem indicator_list_shape ctx (sp : StepPagesProps Node) :
  let l := StepPages (Err:=Err) ctx sp in
  let n := length (steps sp) in
  let completed := Nat.min (Z.to_nat (currentStep ctx - 1)) n in
  let clickable := Nat.min (Z.to_nat (currentStep ctx)) n in
  stepNumber <$> l = seqZ 1 (Z.of_nat n) ∧
  isCompleted <$> l = replicate completed true ++ replicate (n - completed) false ∧
  isClickable <$> l = replicate clickable true ++ replicate (n - clickable) false ∧
  isActive <$> l
  = if decide (1 ≤ currentStep ctx ≤ Z.of_nat n)
    then replicate (Z.to_nat (currentStep ctx) - 1) false ++ [true]
         ++ replicate (n - Z.to_nat (currentStep ctx)) false
    else replicate n false.
Proof.
  intros l n completed clickable. subst l. split; [|split; [|split]].
  - rewrite (StepPages_fmap stepNumber (λ i, Z.of_nat i + 1)).
    + apply list_eq. intros i. rewrite list_lookup_fmap.
      destruct (decide (i < n)%nat).
      * rewrite lookup_seq_lt, lookup_seqZ_lt by lia. cbn. f_equal. lia.
      * rewrite lookup_seq_ge, lookup_seqZ_ge by lia. done.
    + intros index ind E. by destruct (StepPages_lookup _ _ _ _ E) as (_ & -> & _).
  - rewrite (StepPages_fmap isCompleted (λ i, Z.of_nat i + 1 <? currentStep ctx)).
    + apply prefix_flags; [lia|]. intros i Hi. rewrite Z.ltb_lt. lia.
    + intros index ind E.
      by destruct (StepPages_lookup _ _ _ _ E) as (_ & _ & _ & -> & _).
  - rewrite (StepPages_fmap isClickable (λ i, Z.of_nat i + 1 <=? currentStep ctx)).
    + apply prefix_flags; [lia|]. intros i Hi. rewrite Z.leb_le. lia.
    + intros index ind E.
      by destruct (StepPages_lookup _ _ _ _ E) as (_ & _ & _ & _ & -> & _).
  - rewrite (StepPages_fmap isActive (λ i, Z.of_nat i + 1 =? currentStep ctx)).
    + destruct (decide _) as [Hin|Hout].
      * replace (n - Z.to_nat (currentStep ctx))%nat
          with (n - S (Z.to_nat (currentStep ctx) - 1))%nat by lia.
        apply single_flag; [lia|]. intros i Hi. rewrite Z.eqb_eq. lia.
      * apply fmap_seq_const. intros i Hi. apply Z.eqb_neq. lia.
    + intros index ind E.
      by destruct (StepPages_lookup _ _ _ _ E) as (_ & _ & -> & _).
Qed.

(** X8: connectors.  Every entry of the indicator list except the last one
    is followed by a connector, which is drawn completed exactly when its
    entry is completed; the last entry has none, so n entries show
    n - 1 connectors and an empty list shows nothing. *)
Theorem connectors_between_entries ctx (sp : StepPagesProps Node) :
  let l := StepPages (Err:=Err) ctx sp in
  let n := length (steps sp) in
  connector <$> l
  = (Some <$> take (n - 1) (isCompleted <$> l)) ++ replicate (Nat.min n 1) None.
Proof.
  intros l n. subst l. apply list_eq. intros i.
  assert (length (Some <$> take (n - 1) (isCompleted <$> StepPages (Err:=Err) ctx sp))
          = (n - 1)%nat) as Hlen.
  { rewrite length_fmap, length_take, length_fmap. unfold StepPages.
    rewrite length_imap. lia. }
  rewrite list_lookup_fmap.
  destruct (StepPages ctx sp !! i) as [ind|] eqn:E.
  - destruct (StepPages_lookup _ _ _ _ E) as (Hi & _ & _ & Hc & _ & Hconn).
    cbn. rewrite Hconn. fold n in Hi |- *.
    destruct (Z.of_nat i + 1 <? Z.of_nat n) eqn:Elast.
    + apply Z.ltb_lt in Elast.
      rewrite lookup_app_l by lia.
      rewrite list_lookup_fmap, lookup_take_lt by lia.
      rewrite list_lookup_fmap, E. cbn. by rewrite Hc.
    + apply Z.ltb_ge in Elast.
      rewrite lookup_app_r by lia. rewrite Hlen.
      replace (i - (n - 1))%nat with 0%nat by lia.
      by replace (Nat.min n 1) with 1%nat by lia.
  - apply lookup_ge_None in E. unfold StepPages in E. rewrite length_imap in E.
    fold n in E. cbn. symmetry. apply lookup_ge_None.
    rewrite length_app, Hlen, length_replicate. lia.
Qed.

Lemma handler_goToStep_controlled w (m : Handler Callback Err unit) c :
  world_ok w →
  controlledStep (w_props w) = Some c →
  currentStep (w_ctx (run_handler w m)) = currentStep (w_ctx w).
Proof.
  intros Hok Hc. rewrite (run_handler_ctx w _ Hok), (world_currentStep w Hok).
  rewrite recomputed_currentStep. unfold current. by rewrite Hc.
Qed.

(** X9: a click on an indicator never moves the wizard forward: after the
    click the current step is at most what it was, and when it changed it
    is the number of the clicked entry. *)
Theorem indicator_click_never_advances w index :
  reachable w →
  currentStep (w_ctx (step w (EvClickIndicator index))) ≤ currentStep (w_ctx w) ∧
  (currentStep (w_ctx (step w (EvClickIndicator index))) ≠ currentStep (w_ctx w) →
   currentStep (w_ctx (step w (EvClickIndicator index))) = Z.of_nat index + 1).
Proof.
  intros Hr. pose proof (reachable_ok w Hr) as Hok. cbn [step].
  destruct (StepPages (w_ctx w) (w_stepPages w) !! index) as [ind|] eqn:E;
    [|split; [lia|done]].
  destruct (StepPages_lookup _ _ _ _ E) as (_ & _ & _ & _ & Hclick & _).
  unfold StepPages in E. rewrite list_lookup_imap in E.
  destruct (steps _ !! index) as [sd|]; [|done]. injection E as <-.
  unfold click. cbn [disabled onClick isClickable] in *.
  destruct (Z.of_nat index + 1 <=? currentStep (w_ctx w)) eqn:Ele; cbn [negb].
  - apply Z.leb_le in Ele.
    destruct (controlledStep (w_props w)) as [c|] eqn:Ec.
    + rewrite (handler_goToStep_controlled w _ c Hok Ec). split; [lia|done].
    + destruct (world_goToStep_uncontrolled w Hok Ec) as [Hf _].
      destruct (handler_goToStep w (goToStep (w_ctx w)) (Z.of_nat index + 1)
                  Hok Ec Hf) as (-> & _ & _).
      case_decide; split; try lia; done.
  - rewrite (run_handler_ret w Hok). split; [lia|done].
Qed.

(** ** More on the footer *)

(** X10: on the last step the next button reads "Finish" and is disabled,
    so a click on it never calls onNext; whenever the next button is
    enabled it carries the configured label (default "Next"); and on step 1
    or below the previous button is disabled. *)
Theorem finish_button_is_disabled w a :
  reachable w →
  StepPageFooter (w_footer w) (w_ctx w) (w_isLoading w) = DefaultButtons a →
  (currentStep (w_ctx w) = totalSteps (w_ctx w) →
     nextText a = "Finish"%string ∧ nextDisabled a = true ∧
     ∀ sync, click_footer w Next sync = w) ∧
  (nextDisabled a = false →
     nextText a = default "Next"%string (nextLabel (w_footer w))) ∧
  (currentStep (w_ctx w) ≤ 1 → prevDisabled a = true).
Proof.
  intros Hr Ev. pose proof (reachable_ok w Hr) as Hok.
  assert (canGoNext (w_ctx w) = (currentStep (w_ctx w) <? totalSteps (w_ctx w)) ∧
          canGoPrev (w_ctx w) = (currentStep (w_ctx w) >? 1)) as [Hn Hp].
  { by rewrite (world_ok_ctx w Hok). }
  pose proof Ev as Ev'. unfold StepPageFooter in Ev'.
  destruct (footerChildren (w_footer w)); [done|].
  destruct (default true (showDefaultActions (w_footer w))); [|done].
  injection Ev' as <-. cbn [nextText nextDisabled prevDisabled].
  rewrite Hn, Hp. split; [|split].
  - intros Elast. rewrite Elast, Z.eqb_refl, Z.ltb_irrefl.
    split; [done|]. split; [done|]. intros sync.
    unfold click_footer. rewrite Ev. cbn [nextDisabled].
    by rewrite Hn, Elast, Z.ltb_irrefl.
  - intros [Hlt _]%orb_false_iff. apply negb_false_iff, Z.ltb_lt in Hlt.
    by rewrite (proj2 (Z.eqb_neq _ _)) by lia.
  - intros Hle. rewrite Z.gtb_ltb, (proj2 (Z.ltb_ge _ _)) by lia. done.
Qed.






(** X12: at any time at most one footer handler is pending, and isLoading
    is true exactly while one is: a handler is pending from the click that
    started it until its hook settles. *)
Theorem footer_pending_invariant w :
  reachable w →
  (length (w_suspended w) ≤ 1)%nat ∧
  (w_isLoading w = true ↔ w_suspended w ≠ []).
Proof.
  intros Hr. pose proof (reachable_footer_ok w Hr) as Hok.
  unfold footer_state_ok in Hok.
  destruct (w_suspended w) as [|k [|k' l]]; [| |done].
  - rewrite Hok. split; [cbn; lia|]. by split.
  - rewrite Hok. split; [cbn; lia|]. by split.
Qed.

Lemma navigation_keeps w ev :
  is_navigation ev →
  w_suspended (step w ev) = w_suspended w ∧
  w_props (step w ev) = w_props w ∧
  w_footer (step w ev) = w_footer w.
Proof.
  intros Hev. destruct ev; try done; cbn [step]; try done.
  by destruct (_ !! _).
Qed.

Lemma run_navigation_keeps w evs :
  reachable w →
  Forall is_navigation evs →
  reachable (run w evs) ∧
  w_suspended (run w evs) = w_suspended w ∧
  w_props (run w evs) = w_props w.
Proof.
  intros Hr. induction evs as [|ev evs IH] using rev_ind; intros Hevs; [done|].
  apply Forall_app in Hevs as [Hevs Hev%Forall_inv].
  destruct (IH Hevs) as (Hr' & Hs & Hp). rewrite run_app.
  change (run (run w evs) [ev]) with (step (run w evs) ev).
  destruct (navigation_keeps (run w evs) ev Hev) as (Hs' & Hp' & _).
  split; [by apply reachable_step|]. split; congruence.
Qed.

Lemma apply_effects_app h (es es' : list (Effect Callback)) :
  apply_effects h (es ++ es') = apply_effects (apply_effects h es) es'.
Proof. apply foldl_app. Qed.

(** X13: a pending next commits to the step after the one on which it was
    clicked.  In uncontrolled mode, when next is clicked on a step >= 0 and
    the wizard is navigated by indicator clicks or by calls of goToStep,
    nextStep or prevStep while the hook is pending, the fulfilment of the
    hook puts the wizard on the step of the click plus one, wherever the
    navigation had taken it. *)
Theorem pending_next_uses_step_of_click w a evs :
  reachable w →
  controlledStep (w_props w) = None →
  StepPageFooter (w_footer w) (w_ctx w) (w_isLoading w) = DefaultButtons a →
  nextDisabled a = false →
  0 ≤ currentStep (w_ctx w) →
  Forall is_navigation evs →
  currentStep (w_ctx (run w (EvClickNext None :: evs ++ [EvSettle 0 Fulfilled])))
  = currentStep (w_ctx w) + 1.
Proof.
  intros Hr Hun Ev Ed Hpos Hevs. pose proof (reachable_ok w Hr) as Hok.
  pose proof (enabled_not_loading w Next a Ev Ed) as Hl.
  pose proof (footer_ok_idle w (reachable_footer_ok w Hr) Hl) as Hs.
  assert (currentStep (w_ctx w) < totalSteps (w_ctx w)) as Hlt.
  { pose proof Ev as Ev'. unfold StepPageFooter in Ev'.
    destruct (footerChildren (w_footer w)); [done|].
    destruct (default true _); [|done]. injection Ev' as <-.
    cbn in Ed. apply orb_false_iff in Ed as [Hc _].
    apply negb_false_iff in Hc. rewrite (world_ok_ctx w Hok) in Hc.
    cbn in Hc. apply Z.ltb_lt in Hc.
    by rewrite (world_currentStep w Hok), (world_totalSteps w Hok). }
  change (run w (EvClickNext None :: evs ++ [EvSettle 0 Fulfilled]))
    with (run (step w (EvClickNext None)) (evs ++ [EvSettle 0 Fulfilled])).
  set (hook := onNext (w_footer w)).
  set (k := {| sus_direction := Next; sus_hook := hook;
               sus_commit := nextStep (w_ctx w) |}).
  assert (step w (EvClickNext None)
          = with_suspended (perform w (before_await hook) []) [k]) as E1.
  { cbn [step]. unfold click_footer. rewrite Ev, Ed. fold hook.
    rewrite perform_suspended, Hs. by destruct hook. }
  assert (reachable (step w (EvClickNext None))) as Hr1
    by (by apply reachable_step).
  destruct (run_navigation_keeps _ evs Hr1 Hevs) as (Hr2 & Hs2 & Hp2).
  rewrite run_app. set (w2 := run (step w (EvClickNext None)) evs) in *.
  rewrite E1 in Hs2, Hp2. cbn [with_suspended w_suspended w_props perform] in Hs2, Hp2.
  pose proof (reachable_ok w2 Hr2) as Hok2.
  cbn [run foldl step]. unfold settle. rewrite Hs2.
  cbn [lookup list_lookup].
  assert (∀ w3 w4 : World Callback Err Node,
            match sus_hook k, @Fulfilled Err with
            | None, Rejected _ => w3
            | _, _ => w4
            end = w4) as Hm by (intros; by destruct (sus_hook k)).
  rewrite (Hm w2). clear Hm.
  rewrite await_fulfilled. unfold run_handler.
  rewrite perform_with_suspended. cbn [with_suspended w_ctx].
  rewrite (perform_ctx w2 _ _ (proj1 Hok2)), recomputed_currentStep.
  unfold current. rewrite Hp2, Hun. cbn [fst].
  rewrite apply_effects_app. cbn [apply_effects foldl apply_effect].
  change (foldl apply_effect ?h ?es) with (apply_effects h es).
  unfold commit_of, andThen, bind, emit. cbn [sus_direction sus_commit k].
  destruct (world_closures w Hok) as (_ & Hn & _).
  destruct (world_goToStep_uncontrolled w Hok Hun) as [Hf Ht].
  unfold run_nextStep. rewrite Hn.
  cbn [stepFn_of s_goToStep s_currentStep fst snd].
  rewrite run_goToStep_in_range by lia. rewrite Hf. done.
Qed.

(** ** Element trees *)

(** Induction on elements, with the hypothesis for the children of a
    container. *)
Lemma Element_children_ind (P : Element Node → Prop) :
  (∀ cs, Forall P cs → P (EStepPageHeader cs)) →
  (∀ p, P (EStepPages p)) →
  (∀ cs, Forall P cs → P (EStepPageContent cs)) →
  (∀ step cs, Forall P cs → P (EStepItem step cs)) →
  (∀ cs, Forall P cs → P (EStepPageFooter cs)) →
  (∀ n, P (EOther n)) →
  ∀ e, P e.
Proof.
  intros Hh Hp Hc Hi Hf Ho.
  fix IH 1. intros [cs|p|cs|step cs|cs|n].
  - apply Hh. induction cs as [|c cs IHcs]; constructor; [apply IH|exact IHcs].
  - apply Hp.
  - apply Hc. induction cs as [|c cs IHcs]; constructor; [apply IH|exact IHcs].
  - apply Hi. induction cs as [|c cs IHcs]; constructor; [apply IH|exact IHcs].
  - apply Hf. induction cs as [|c cs IHcs]; constructor; [apply IH|exact IHcs].
  - apply Ho.
Qed.

Lemma written_instances current (e : Element Node) :
  written_without_setter e = true →
  Forall (λ p, setTotalSteps p = false) (mounted_StepPages current e).
Proof.
  induction e as [cs IH|p|cs IH|step cs IH|cs IH|n] using Element_children_ind;
    cbn [written_without_setter mounted_StepPages]; intros Hw.
  - induction IH as [|c cs Hc _ IHcs]; [done|].
    cbn in Hw. apply andb_true_iff in Hw as [Hw1 Hw2].
    cbn. apply Forall_app. split; [by apply Hc|by apply IHcs].
  - constructor; [|done]. by apply negb_true_iff.
  - induction IH as [|c cs Hc _ IHcs]; [done|].
    cbn in Hw. apply andb_true_iff in Hw as [Hw1 Hw2].
    cbn. apply Forall_app. split; [by apply Hc|by apply IHcs].
  - destruct (decide (current ≠ step)); [done|].
    induction IH as [|c cs Hc _ IHcs]; [done|].
    cbn in Hw. apply andb_true_iff in Hw as [Hw1 Hw2].
    cbn. apply Forall_app. split; [by apply Hc|by apply IHcs].
  - induction IH as [|c cs Hc _ IHcs]; [done|].
    cbn in Hw. apply andb_true_iff in Hw as [Hw1 Hw2].
    cbn. apply Forall_app. split; [by apply Hc|by apply IHcs].
  - done.
Qed.

Lemma effects_without_setter (ps : list (StepPagesProps Node)) :
  Forall (λ p, setTotalSteps p = false) ps →
  flat_map (λ p, (StepPages_effect (Callback:=Callback) None p).1) ps = [].
Proof.
  induction 1 as [|p ps Hp _ IH]; [done|].
  cbn [flat_map]. rewrite IH. destruct p as [l b]. cbn in Hp. subst b.
  by rewrite StepPages_effect_without_setter.
Qed.

Lemma mount_effects current (children : list (Element Node)) :
  forallb written_without_setter children = true →
  flat_map (λ p, (StepPages_effect (Callback:=Callback) None p).1)
    (flat_map (mounted_StepPages current)
       (map cloneElement_setTotalSteps children))
  = (λ n, SetTotalSteps (Z.of_nat n)) <$> direct_step_lists children.
Proof.
  induction children as [|e children IH]; [done|].
  cbn [forallb]. intros [He Hcs]%andb_true_iff.
  cbn [map flat_map]. rewrite flat_map_app, IH by done.
  unfold direct_step_lists. cbn [omap list_omap].
  destruct e as [cs|p|cs|step cs|cs|n];
    cbn [cloneElement_setTotalSteps];
    try (rewrite effects_without_setter by (by apply written_instances); done).
  done.
Qed.

Lemma apply_setTotalSteps h (ns : list nat) :
  totalStepsCell
    (apply_effects h ((λ n, SetTotalSteps (Callback:=Callback) (Z.of_nat n)) <$> ns))
  = from_option Z.of_nat (totalStepsCell h) (last ns).
Proof.
  induction ns as [|n ns IH] using rev_ind; [done|].
  rewrite fmap_app, apply_effects_app, last_snoc. done.
Qed.

(** X14: of the step lists written under a root, only those that are its
    direct children register.  After the mount, totalSteps is the length of
    the last step list among the direct children, and 0 when no direct
    child is a step list, whatever step lists the header, the content
    container, the panes or the footer contain. *)
Theorem only_direct_step_lists_register props (children : list (Element Node)) :
  forallb written_without_setter children = true →
  totalStepsCell (mount_tree props children)
  = from_option Z.of_nat 0 (last (direct_step_lists children)).
Proof.
  intros Hw. unfold mount_tree. rewrite mount_effects by done.
  by rewrite apply_setTotalSteps, StepPage_totalStepsCell.
Qed.

Lemma head_omap_None {A B} (f : A → option B) (l : list A) :
  Forall (λ x, f x = None) l → head (omap f l) = None.
Proof. induction 1 as [|x l Hx _ IH]; [done|]. cbn. by rewrite Hx. Qed.

Lemma render_error_outside_children (cs : list (Element Node)) :
  Forall (λ e, render_error (Callback:=Callback) None e
               = if has_consumer e
                 then Some "Step components must be used within StepPage"%string
                 else None) cs →
  head (omap (render_error (Callback:=Callback) None) cs)
  = if existsb has_consumer cs
    then Some "Step components must be used within StepPage"%string
    else None.
Proof.
  induction 1 as [|c cs Hc _ IH]; [done|].
  cbn. rewrite Hc. destruct (has_consumer c); [done|]. by rewrite IH.
Qed.

(** X15: use outside a root.  Inside a StepPage no element throws the
    configuration error.  Without an enclosing StepPage, an element throws
    "Step components must be used within StepPage" exactly when it is, or
    its header and content containers hold, a StepPages, a StepItem or a
    StepPageFooter; a StepItem throws there whatever step it declares. *)
Theorem provider_required_by_consumers (e : Element Node) :
  (∀ ctx : StepPageContextValue Callback, render_error (Some ctx) e = None) ∧
  render_error (Callback:=Callback) None e
  = if has_consumer e
    then Some "Step components must be used within StepPage"%string
    else None.
Proof.
  split.
  - intros ctx.
    induction e as [cs IH|p|cs IH|step cs IH|cs IH|n] using Element_children_ind;
      cbn [render_error useStepPage]; try done.
    + by apply head_omap_None.
    + by apply head_omap_None.
    + destruct (decide _); [done|]. by apply head_omap_None.
    + by apply head_omap_None.
  - induction e as [cs IH|p|cs IH|step cs IH|cs IH|n] using Element_children_ind;
      cbn [render_error useStepPage has_consumer]; try done.
    + by apply render_error_outside_children.
    + by apply render_error_outside_children.
Qed.

(** ** Components of the examples *)

Lemma render_flags props h :
  reachable_hooks h →
  canGoNext (render props h)
  = (currentStep (render props h) <? totalSteps (render props h)) ∧
  canGoPrev (render props h) = (currentStep (render props h) >? 1) ∧
  nextStep (render props h)
  = stepFn_of (currentStep (render props h), goToStep (render props h)) ∧
  prevStep (render props h)
  = stepFn_of (currentStep (render props h), goToStep (render props h)) ∧
  g_totalSteps (goToStep (render props h)) = totalSteps (render props h) ∧
  g_isControlled (goToStep (render props h))
  = bool_decide (is_Some (controlledStep props)).
Proof. intros Hr. by rewrite (render_recomputed _ _ Hr). Qed.

Lemma uncontrolled_goToStep props h target :
  reachable_hooks h →
  controlledStep props = None →
  1 ≤ target ≤ totalSteps (render props h) →
  run_goToStep (goToStep (render props h)) target
  = emit (SetInternalStep target).
Proof.
  intros Hr Hun Hin.
  destruct (render_flags props h Hr) as (_ & _ & _ & _ & Ht & Hc).
  rewrite run_goToStep_in_range by (by rewrite Ht).
  rewrite Hc, Hun. by rewrite bool_decide_false by (by intros [? [=]]).
Qed.

(** X16: CustomNavigationButtons shows only buttons that work.  In
    uncontrolled mode with the current step in [1, max(totalSteps, 1)],
    a click on any button it shows performs one setInternalStep, to the
    step before or after the current one and inside [1, totalSteps]; and it
    shows no button at all exactly when totalSteps <= 1. *)
Theorem CustomNavigationButtons_work props h :
  reachable_hooks h →
  controlledStep props = None →
  in_bounds (render props h) →
  (∀ label m, (label, m) ∈ CustomNavigationButtons (render props h) →
     ∃ target, m = emit (SetInternalStep target) ∧
               1 ≤ target ≤ totalSteps (render props h) ∧
               (target = currentStep (render props h) - 1 ∨
                target = currentStep (render props h) + 1)) ∧
  (CustomNavigationButtons (Err:=Err) (render props h) = [] ↔
   totalSteps (render props h) ≤ 1).
Proof.
  intros Hr Hun [Hlo Hhi].
  destruct (render_flags props h Hr) as (Hn & Hp & En & Ep & _ & _).
  unfold CustomNavigationButtons. rewrite Hn, Hp, Z.gtb_ltb.
  unfold run_nextStep, run_prevStep. rewrite En, Ep.
  cbn [stepFn_of s_goToStep s_currentStep fst snd].
  split.
  - intros label m Hin. apply elem_of_app in Hin as [Hin|Hin].
    + destruct (1 <? _) eqn:E; [|by apply elem_of_nil in Hin].
      apply Z.ltb_lt in E. apply list_elem_of_singleton in Hin.
      injection Hin as -> ->.
      exists (currentStep (render props h) - 1).
      split; [apply uncontrolled_goToStep; [done|done|lia]|]. lia.
    + destruct (_ <? totalSteps _) eqn:E; [|by apply elem_of_nil in Hin].
      apply Z.ltb_lt in E. apply list_elem_of_singleton in Hin.
      injection Hin as -> ->.
      exists (currentStep (render props h) + 1).
      split; [apply uncontrolled_goToStep; [done|done|lia]|]. lia.
  - destruct (1 <? _) eqn:E1; destruct (_ <? totalSteps _) eqn:E2;
      rewrite ?Z.ltb_lt, ?Z.ltb_ge in *; cbn; split; try done; lia.
Qed.

(** X17: the progress dots of CustomFooterContent.  There are
    max(totalSteps, 0) dots; the dot of the current step is the only one
    marked when 1 <= currentStep <= totalSteps, and none is marked
    otherwise.  In uncontrolled mode, an enabled Continue button performs
    setInternalStep(currentStep + 1) when currentStep >= 0, and it is
    enabled only when isValid holds. *)
Theorem CustomFooterContent_dots props h isValid :
  reachable_hooks h →
  let ctx := render props h in
  let v := CustomFooterContent (Err:=Err) ctx isValid in
  length (dots v) = Z.to_nat (totalSteps ctx) ∧
  dots v
  = (if decide (1 ≤ currentStep ctx ≤ totalSteps ctx)
     then replicate (Z.to_nat (currentStep ctx) - 1) false ++ [true]
          ++ replicate (Z.to_nat (totalSteps ctx) - Z.to_nat (currentStep ctx))
                       false
     else replicate (Z.to_nat (totalSteps ctx)) false) ∧
  (continueDisabled v = false →
     isValid = true ∧
     (0 ≤ currentStep ctx → controlledStep props = None →
      continueClick v = emit (SetInternalStep (currentStep ctx + 1)))).
Proof.
  intros Hr ctx v. subst v ctx.
  destruct (render_flags props h Hr) as (Hn & Hp & En & Ep & _ & _).
  cbn [CustomFooterContent dots continueDisabled continueClick].
  split; [by rewrite length_fmap, length_seq|]. split.
  - destruct (decide _) as [Hin|Hout].
    + replace (Z.to_nat (totalSteps (render props h))
               - Z.to_nat (currentStep (render props h)))%nat
        with (Z.to_nat (totalSteps (render props h))
              - S (Z.to_nat (currentStep (render props h)) - 1))%nat by lia.
      apply single_flag; [lia|]. intros i Hi. rewrite Z.eqb_eq. lia.
    + apply fmap_seq_const. intros i Hi. apply Z.eqb_neq. lia.
  - rewrite Hn. intros [Hlt Hv]%orb_false_iff.
    apply negb_false_iff in Hlt, Hv. apply Z.ltb_lt in Hlt.
    split; [done|]. intros Hpos Hun. unfold run_nextStep. rewrite En.
    cbn [stepFn_of s_goToStep s_currentStep fst snd].
    apply uncontrolled_goToStep; [done|done|lia].
Qed.

(** ** The feature toggle of the demo *)

Lemma filter_other_id (features : list string) (feature : string) :
  feature ∉ features → filter (λ f, f ≠ feature) features = features.
Proof.
  induction features as [|g features IH]; [done|].
  rewrite not_elem_of_cons. intros [Hne Hnotin].
  rewrite filter_cons, decide_True by done. by rewrite IH.
Qed.

Lemma filter_same_singleton (features : list string) (feature : string) :
  NoDup features → feature ∈ features →
  filter (λ f, ¬ f ≠ feature) features = [feature].
Proof.
  induction 1 as [|g features Hg Hnd IH]; [by intros ?%elem_of_nil|].
  intros [->|Hin]%elem_of_cons.
  - rewrite filter_cons, decide_True by (by intros []).
    f_equal. clear IH. induction features as [|g' features IH]; [done|].
    apply not_elem_of_cons in Hg as [Hne Hg].
    apply NoDup_cons in Hnd as [_ Hnd].
    rewrite filter_cons, decide_False by (by intros []; intros ->).
    by apply IH.
  - rewrite filter_cons, decide_False; [by apply IH|].
    intros Heq. apply Hg. destruct (decide (g = feature)) as [->|Hne]; [done|].
    by destruct Heq.
Qed.

(** X18: the feature toggle flips the membership of the toggled feature,
    leaves the membership of every other feature as it is, and keeps a list
    without duplicates free of duplicates. *)
Theorem toggleFeature_flips (features : list string) (feature : string) :
  (feature ∈ toggleFeature features feature ↔ feature ∉ features) ∧
  (∀ other, other ≠ feature →
     other ∈ toggleFeature features feature ↔ other ∈ features) ∧
  (NoDup features → NoDup (toggleFeature features feature)).
Proof.
  unfold toggleFeature. case_bool_decide as Hin.
  - split; [|split].
    + rewrite list_elem_of_filter. split; [by intros [? _]|done].
    + intros other Hne. rewrite list_elem_of_filter. by split; [intros [_ ?]|].
    + apply NoDup_filter.
  - split; [|split].
    + rewrite elem_of_app, list_elem_of_singleton. by split; [|right].
    + intros other Hne. rewrite elem_of_app, list_elem_of_singleton.
      split; [by intros [?|?]|by left].
    + intros Hnd. apply NoDup_app. split; [done|]. split; [|apply NoDup_singleton].
      intros x Hx ->%list_elem_of_singleton. done.
Qed.

(** X19: toggling a feature twice.  When the feature was not selected, the
    list is again what it was.  When it was selected in a list without
    duplicates, the list has the same features as before, with the toggled
    one moved to the end. *)
Theorem toggleFeature_twice (features : list string) (feature : string) :
  (feature ∉ features →
     toggleFeature (toggleFeature features feature) feature = features) ∧
  (NoDup features → feature ∈ features →
     toggleFeature (toggleFeature features feature) feature
     = filter (λ f, f ≠ feature) features ++ [feature] ∧
     toggleFeature (toggleFeature features feature) feature ≡ₚ features).
Proof.
  split.
  - intros Hnotin. unfold toggleFeature at 2.
    rewrite bool_decide_false by done. unfold toggleFeature.
    rewrite bool_decide_true by (apply elem_of_app; right; by left).
    rewrite filter_app, filter_other_id by done.
    by rewrite filter_cons, decide_False, filter_nil, app_nil_r by (by intros []).
  - intros Hnd Hin.
    assert (toggleFeature (toggleFeature features feature) feature
            = filter (λ f, f ≠ feature) features ++ [feature]) as ->.
    { unfold toggleFeature at 2.
      rewrite bool_decide_true by done. unfold toggleFeature.
      by rewrite bool_decide_false
        by (rewrite list_elem_of_filter; by intros [? _]). }
    split; [done|].
    rewrite <- (filter_same_singleton features feature Hnd Hin).
    apply filter_app_complement.
Qed.

(** ** The controlled example and the uncontrolled wizard *)

Section Controlled.

Variable setCurrentStep : Callback.
Hypothesis setCurrentStep_returns : ∀ v, cb_throws setCurrentStep v = None.

Implicit Types (s : ControlledStepPage Callback Err Node).
Implicit Types (u : World Callback Err Node).

Lemma goToStep_translated (f g : GoToStepFn Callback) target :
  same_closure setCurrentStep f g →
  translated (run_goToStep f target) (run_goToStep g target).
Proof.
  intros (Ht & Hc & Hcb & Hu). unfold translated, run_goToStep.
  rewrite Ht, Hc, Hcb, Hu. destruct (_ || _); [by split|].
  unfold invoke. rewrite setCurrentStep_returns.
  split; [done|by repeat constructor].
Qed.

Lemma commit_of_translated d (fc fu : StepFn Callback) :
  s_currentStep fc = s_currentStep fu →
  same_closure setCurrentStep (s_goToStep fc) (s_goToStep fu) →
  translated (commit_of d fc) (commit_of d fu).
Proof.
  intros Hs Hg. unfold commit_of, run_nextStep, run_prevStep. rewrite Hs.
  destruct d.
  - destruct (goToStep_translated _ _ (s_currentStep fu + 1) Hg) as [-> Hn].
    unfold translated, andThen, bind, emit.
    destruct (run_goToStep _ _) as [es c]. cbn. split; [done|by constructor].
  - destruct (goToStep_translated _ _ (s_currentStep fu - 1) Hg) as [-> Hn].
    unfold translated, andThen, bind, emit.
    destruct (run_goToStep _ _) as [es c]. cbn. split; [done|by constructor].
Qed.

Lemma after_await_translated hook (mc mu : Handler Callback Err unit)
    (st : Settlement Err) :
  translated mc mu →
  translated (after_await hook mc st) (after_await hook mu st).
Proof.
  intros [-> Hn]. rewrite !after_await_unfold. unfold translated.
  destruct mc as [es c]. cbn [fst snd] in *.
  destruct hook as [hook|], st as [|e]; cbn; rewrite ?fmap_app;
    (split; [done|]); rewrite ?Forall_app; repeat constructor; done.
Qed.

Lemma translated_hooks (es : list (Effect Callback)) hc hu :
  Forall no_step_write es →
  totalStepsCell hc = totalStepsCell hu →
  internalStep (apply_effects hu (uncontrolled_effect <$> es))
  = default (internalStep hu) (last (callback_calls es).*2) ∧
  totalStepsCell (apply_effects hc es)
  = totalStepsCell (apply_effects hu (uncontrolled_effect <$> es)).
Proof.
  induction es as [|e es IH] using rev_ind; [done|].
  intros [Hes He%Forall_inv]%Forall_app Ht.
  destruct (IH Hes Ht) as [IH1 IH2].
  unfold apply_effects in *. rewrite fmap_app, !foldl_app.
  rewrite callback_calls_app, fmap_app. cbn [fmap list_fmap foldl].
  destruct e; cbn; rewrite ?app_nil_r; try done.
  by rewrite last_snoc.
Qed.

Lemma translated_loading (es : list (Effect Callback)) b :
  loading_after b (uncontrolled_effect <$> es) = loading_after b es.
Proof.
  revert b. induction es as [|e es IH]; [done|]. intros b.
  unfold loading_after in *. cbn. destruct e; cbn; apply IH.
Qed.

(** What [follows] says about the two context values. *)
Lemma follows_ctx s u :
  follows setCurrentStep s u →
  currentStep (w_ctx (c_wizard s)) = c_currentStep s ∧
  currentStep (w_ctx u) = c_currentStep s ∧
  totalSteps (w_ctx (c_wizard s)) = totalSteps (w_ctx u) ∧
  canGoNext (w_ctx (c_wizard s)) = canGoNext (w_ctx u) ∧
  canGoPrev (w_ctx (c_wizard s)) = canGoPrev (w_ctx u) ∧
  same_closure setCurrentStep (goToStep (w_ctx (c_wizard s))) (goToStep (w_ctx u)) ∧
  nextStep (w_ctx (c_wizard s))
  = stepFn_of (c_currentStep s, goToStep (w_ctx (c_wizard s))) ∧
  prevStep (w_ctx (c_wizard s))
  = stepFn_of (c_currentStep s, goToStep (w_ctx (c_wizard s))) ∧
  nextStep (w_ctx u) = stepFn_of (c_currentStep s, goToStep (w_ctx u)) ∧
  prevStep (w_ctx u) = stepFn_of (c_currentStep s, goToStep (w_ctx u)).
Proof.
  intros (Hc & Hu & Hp & Hun & Hi & Ht & _).
  rewrite (world_ok_ctx _ Hc), (world_ok_ctx _ Hu).
  unfold recomputed, current. rewrite Hp, Hun, Hi, Ht. cbn.
  done.
Qed.

Lemma unchanged_shape w :
  world_ok w → w = with_suspended (perform w [] []) (w_suspended w).
Proof. intros Hok. rewrite (perform_nil w Hok). by destruct w. Qed.

(** The two wizards take an event of a handler with effects that
    correspond. *)
Lemma same_step s u ev :
  follows setCurrentStep s u →
  is_handler_event ev →
  ∃ es thrown lc lu,
    step (c_wizard s) ev = with_suspended (perform (c_wizard s) es thrown) lc ∧
    step u ev
    = with_suspended (perform u (uncontrolled_effect <$> es) thrown) lu ∧
    Forall no_step_write es ∧
    Forall2 (same_suspended setCurrentStep) lc lu.
Proof.
  intros Hf Hev.
  destruct (follows_ctx s u Hf)
    as (Hcc & Hcu & Htot & Hgn & Hgp & Hg & Hnc & Hpc & Hnu & Hpu).
  destruct Hf as (Hokc & Hoku & Hp & Hun & Hi & Ht & Hsp & Hdeps & Hfp & Hl
                  & Hth & Hsus).
  assert (∃ es thrown lc lu,
    c_wizard s = with_suspended (perform (c_wizard s) es thrown) lc ∧
    u = with_suspended (perform u (uncontrolled_effect <$> es) thrown) lu ∧
    Forall no_step_write es ∧
    Forall2 (same_suspended setCurrentStep) lc lu) as Hsame.
  { exists [], [], (w_suspended (c_wizard s)), (w_suspended u).
    split; [by apply unchanged_shape|]. split; [by apply unchanged_shape|].
    by split. }
  assert (∀ mc mu : Handler Callback Err unit, translated mc mu →
    ∃ es thrown lc lu,
      run_handler (c_wizard s) mc
      = with_suspended (perform (c_wizard s) es thrown) lc ∧
      run_handler u mu
      = with_suspended (perform u (uncontrolled_effect <$> es) thrown) lu ∧
      Forall no_step_write es ∧
      Forall2 (same_suspended setCurrentStep) lc lu) as Hrun.
  { intros mc mu [-> Hn].
    exists mc.1, (thrown_by mc.2), (w_suspended (c_wizard s)), (w_suspended u).
    by repeat split. }
  destruct ev; try done; cbn [step].
  - by apply Hrun, goToStep_translated.
  - apply Hrun. unfold run_nextStep. rewrite Hnc, Hnu. cbn.
    by apply goToStep_translated.
  - apply Hrun. unfold run_prevStep. rewrite Hpc, Hpu. cbn.
    by apply goToStep_translated.
  - unfold StepPages. rewrite !list_lookup_imap, Hsp, Hcc, Hcu.
    destruct (steps (w_stepPages u) !! index) as [item|]; [|done]. cbn.
    apply Hrun. unfold click. cbn.
    destruct (_ <=? _); cbn; [by apply goToStep_translated|by split].
  - unfold click_footer. unfold StepPageFooter.
    rewrite Hfp, Hgn, Hgp, Hl, Hcc, Hcu, Htot.
    destruct (footerChildren _); [done|].
    destruct (default true _); [|done]. cbn [nextDisabled].
    destruct (negb _ || _); [done|].
    destruct (onNext (w_footer u)) as [hook|]; [destruct sync as [e|]|].
    + eexists _, _, (w_suspended (c_wizard s)), (w_suspended u).
      split; [done|]. rewrite !await_rejected. cbn [fst snd].
      split; [done|]. split; [by repeat constructor|done].
    + eexists (before_await (Some hook)), [], _, _.
      split; [done|]. split; [done|]. split; [by repeat constructor|].
      cbn. apply Forall2_app; [done|]. constructor; [|done].
      unfold same_suspended. cbn. rewrite Hnc, Hnu. cbn. auto.
    + eexists (before_await None), [], _, _.
      split; [done|]. split; [done|]. split; [by repeat constructor|].
      cbn. apply Forall2_app; [done|]. constructor; [|done].
      unfold same_suspended. cbn. rewrite Hnc, Hnu. cbn. auto.
  - unfold click_footer. unfold StepPageFooter.
    rewrite Hfp, Hgn, Hgp, Hl, Hcc, Hcu, Htot.
    destruct (footerChildren _); [done|].
    destruct (default true _); [|done]. cbn [prevDisabled].
    destruct (negb _ || _); [done|].
    destruct (onPrev (w_footer u)) as [hook|]; [destruct sync as [e|]|].
    + eexists _, _, (w_suspended (c_wizard s)), (w_suspended u).
      split; [done|]. rewrite !await_rejected. cbn [fst snd].
      split; [done|]. split; [by repeat constructor|done].
    + eexists (before_await (Some hook)), [], _, _.
      split; [done|]. split; [done|]. split; [by repeat constructor|].
      cbn. apply Forall2_app; [done|]. constructor; [|done].
      unfold same_suspended. cbn. rewrite Hpc, Hpu. cbn. auto.
    + eexists (before_await None), [], _, _.
      split; [done|]. split; [done|]. split; [by repeat constructor|].
      cbn. apply Forall2_app; [done|]. constructor; [|done].
      unfold same_suspended. cbn. rewrite Hpc, Hpu. cbn. auto.
  - unfold settle.
    destruct (w_suspended (c_wizard s) !! i) as [kc|] eqn:Ekc.
    + destruct (Forall2_lookup_l _ _ _ _ _ Hsus Ekc) as (ku & Eku & Hk).
      rewrite Eku. destruct Hk as (Hd & Hh & Hs & Hcl). rewrite Hd, Hh.
      assert (translated
        (after_await (sus_hook ku)
           (commit_of (sus_direction ku) (sus_commit kc)) s0)
        (after_await (sus_hook ku)
           (commit_of (sus_direction ku) (sus_commit ku)) s0)) as [Hm Hn].
      { by apply after_await_translated, commit_of_translated. }
      assert (∃ es thrown lc lu,
        run_handler (with_suspended (c_wizard s)
                       (delete i (w_suspended (c_wizard s))))
          (after_await (sus_hook ku)
             (commit_of (sus_direction ku) (sus_commit kc)) s0)
        = with_suspended (perform (c_wizard s) es thrown) lc ∧
        run_handler (with_suspended u (delete i (w_suspended u)))
          (after_await (sus_hook ku)
             (commit_of (sus_direction ku) (sus_commit ku)) s0)
        = with_suspended (perform u (uncontrolled_effect <$> es) thrown) lu ∧
        Forall no_step_write es ∧
        Forall2 (same_suspended setCurrentStep) lc lu) as Hsettle.
      { rewrite Hm.
        eexists _, _, (delete i (w_suspended (c_wizard s))),
          (delete i (w_suspended u)).
        split; [done|]. split; [done|]. split; [done|].
        by apply Forall2_delete. }
      destruct (sus_hook ku), s0; auto.
    + assert (w_suspended u !! i = None) as ->; [|done].
      apply lookup_ge_None. apply lookup_ge_None in Ekc.
      by rewrite <- (Forall2_length _ _ _ Hsus).
Qed.

Lemma ControlledStepPage_step_follows s u ev :
  follows setCurrentStep s u →
  keeps_props ev →
  follows setCurrentStep (ControlledStepPage_step setCurrentStep s ev) (step u ev).
Proof.
  intros Hf Hev.
  assert (is_handler_event ev ∨ ∃ l, ev = EvSteps l) as [Hh|[l ->]].
  { destruct ev; try (by left). right. by eexists. }
  - destruct (same_step s u ev Hf Hh) as (es & thrown & lc & lu & Ec & Eu & Hn & Hl).
    destruct Hf as (Hokc & Hoku & Hp & Hun & Hi & Ht & Hsp & Hdeps & Hfp & Hld
                    & Hth & Hsus).
    unfold ControlledStepPage_step. rewrite Ec, Eu.
    change (w_trace (with_suspended (perform (c_wizard s) es thrown) lc))
      with (w_trace (c_wizard s) ++ es).
    rewrite drop_app_length.
    destruct (translated_hooks es (w_hooks (c_wizard s)) (w_hooks u) Hn Ht)
      as [Hint Htot].
    unfold follows. cbn [c_wizard c_currentStep].
    split; [apply set_props_ok, with_suspended_ok, perform_ok, Hokc|].
    split; [apply with_suspended_ok, perform_ok, Hoku|].
    split; [done|]. split; [done|].
    split. { cbn. by rewrite StepPage_internalStep, Hint, Hi. }
    split. { cbn. by rewrite !StepPage_totalStepsCell. }
    split; [done|]. split; [done|]. split; [done|].
    split. { cbn. by rewrite translated_loading, Hld. }
    split; [cbn; by rewrite Hth|done].
  - destruct Hf as (Hokc & Hoku & Hp & Hun & Hi & Ht & Hsp & Hdeps & Hfp & Hld
                    & Hth & Hsus).
    unfold ControlledStepPage_step. cbn [step].
    assert (∃ es,
      (StepPages_effect (Callback:=Callback) (w_effectDeps (c_wizard s))
         {| steps := l; setTotalSteps := setTotalSteps (w_stepPages (c_wizard s)) |}).1
      = es ∧
      (StepPages_effect (Callback:=Callback) (w_effectDeps u)
         {| steps := l; setTotalSteps := setTotalSteps (w_stepPages u) |}).1
      = es ∧
      uncontrolled_effect <$> es = es ∧ Forall no_step_write es)
      as (es & Ec & Eu & Etr & Hn).
    { rewrite Hdeps, Hsp. eexists. split; [done|]. split; [done|].
      unfold StepPages_effect. destruct (decide _); [done|].
      destruct (setTotalSteps _); by repeat constructor. }
    change (w_trace (set_steps (c_wizard s) l))
      with (w_trace (c_wizard s) ++
            (StepPages_effect (Callback:=Callback) (w_effectDeps (c_wizard s))
               {| steps := l;
                  setTotalSteps := setTotalSteps (w_stepPages (c_wizard s)) |}).1).
    rewrite drop_app_length, Ec.
    destruct (translated_hooks es (w_hooks (c_wizard s)) (w_hooks u) Hn Ht)
      as [Hint Htot].
    rewrite Etr in Hint, Htot.
    unfold follows. cbn [c_wizard c_currentStep].
    split; [apply set_props_ok, set_steps_ok, Hokc|].
    split; [apply set_steps_ok, Hoku|].
    split; [done|]. split; [done|].
    split. { cbn. by rewrite StepPage_internalStep, Eu, Hint, Hi. }
    split. { cbn. by rewrite !StepPage_totalStepsCell, Ec, Eu. }
    split. { cbn. by rewrite Hsp. }
    split. { cbn. by rewrite Hsp, Hdeps. }
    split; [done|].
    split. { cbn. rewrite Ec, Eu, Hld. done. }
    split; [cbn; by rewrite Hth|done].
Qed.

Lemma ControlledStepPage_mount_follows (sp : StepPagesProps Node)
    (fp : StepPageFooterProps Callback Node) :
  follows (Err:=Err) setCurrentStep
    (ControlledStepPage_mount setCurrentStep sp fp)
    (init uncontrolled_props sp fp).
Proof.
  unfold follows. cbn [ControlledStepPage_mount c_wizard c_currentStep].
  split; [apply init_ok|]. split; [apply init_ok|].
  split; [done|]. split; [done|].
  split.
  { cbn. rewrite StepPage_internalStep. unfold StepPages_effect.
    case_decide; [done|]. by destruct (setTotalSteps sp). }
  split.
  { cbn. rewrite !StepPage_totalStepsCell. unfold StepPages_effect.
    case_decide; [done|]. by destruct (setTotalSteps sp). }
  split; [done|]. split; [done|]. split; [done|]. split; [|by split].
  cbn. unfold StepPages_effect. case_decide; [done|].
  by destruct (setTotalSteps sp).
Qed.

Lemma ControlledStepPage_run_follows s u evs :
  follows setCurrentStep s u →
  Forall keeps_props evs →
  follows setCurrentStep (ControlledStepPage_run setCurrentStep s evs) (run u evs).
Proof.
  intros Hf Hevs. revert s u Hf.
  induction Hevs as [|ev evs Hev Hevs IH]; intros s u Hf; [done|].
  cbn. apply IH. by apply ControlledStepPage_step_follows.
Qed.

End Controlled.

(** X20: ControlledStepPage behaves as the uncontrolled wizard.  With a
    setCurrentStep that returns normally, after any events other than a
    render of the root with props of another origin (navigation calls,
    indicator clicks, footer clicks, settlements of hooks, new step lists),
    the example's state equals the current step the root provides, and the
    current step, the step count, the footer with its loading state and what
    the handlers threw are those of the uncontrolled wizard mounted with the
    same step list and footer and taken through the same events. *)
Theorem ControlledStepPage_follows_uncontrolled (setCurrentStep : Callback)
    (sp : StepPagesProps Node) (fp : StepPageFooterProps Callback Node) evs :
  (∀ v, cb_throws setCurrentStep v = None) →
  Forall keeps_props evs →
  let s := ControlledStepPage_run (Err:=Err) setCurrentStep
             (ControlledStepPage_mount setCurrentStep sp fp) evs in
  let u := run (init uncontrolled_props sp fp) evs in
  currentStep (w_ctx (c_wizard s)) = c_currentStep s ∧
  currentStep (w_ctx (c_wizard s)) = currentStep (w_ctx u) ∧
  totalSteps (w_ctx (c_wizard s)) = totalSteps (w_ctx u) ∧
  StepPageFooter (w_footer (c_wizard s)) (w_ctx (c_wizard s))
                 (w_isLoading (c_wizard s))
  = StepPageFooter (w_footer u) (w_ctx u) (w_isLoading u) ∧
  w_isLoading (c_wizard s) = w_isLoading u ∧
  w_thrown (c_wizard s) = w_thrown u.
Proof.
  intros Hret Hevs s u.
  assert (follows setCurrentStep s u) as Hf.
  { apply ControlledStepPage_run_follows; [done| |done].
    apply ControlledStepPage_mount_follows. }
  destruct (follows_ctx setCurrentStep s u Hf)
    as (Hcc & Hcu & Htot & Hgn & Hgp & _).
  destruct Hf as (_ & _ & _ & _ & _ & _ & _ & _ & Hfp & Hl & Hth & _).
  split; [done|]. split; [by rewrite Hcc, Hcu|]. split; [done|].
  split; [|done]. unfold StepPageFooter.
  by rewrite Hfp, Hgn, Hgp, Hl, Hcc, Hcu, Htot.
Qed.

End Properties.

(** ** Concrete runs *)

(** The scenario of the specification: three steps, default mode. *)
Example end_to_end :
  map (λ evs, currentStep (w_ctx (run (wizard (uncontrolled None) three_steps) evs)))
      [ [];
        [EvNextStep];
        [EvNextStep; EvGoToStep 5];
        [EvNextStep; EvGoToStep 5; EvPrevStep];
        [EvNextStep; EvGoToStep 5; EvPrevStep; EvGoToStep 1] ]
  = [1; 2; 2; 1; 1].
Proof. reflexivity. Qed.

(** The documented placement of the step list: nothing is registered, the
    step count stays 0 and next is not available. *)
Example documented_tree_not_registered :
  totalStepsCell (mount_tree (uncontrolled None) documented_tree) = 0 ∧
  totalStepsCell (mount_tree (uncontrolled None) flat_tree) = 3 ∧
  canGoNext (w_ctx (init (Err:=string) (uncontrolled None) (as_written three_steps)
                      (default_footer None))) = false.
Proof. by vm_compute. Qed.

(** Registering a shorter list takes the current step out of the bounds. *)
Example shorter_list_breaks_bounds :
  in_bounds (w_ctx (run (wizard (uncontrolled None) three_steps)
                        [EvNextStep; EvNextStep])) ∧
  ¬ in_bounds (w_ctx (run (wizard (uncontrolled None) three_steps)
                          [EvNextStep; EvNextStep; EvSteps [entry "A"]])).
Proof. split; vm_compute; [|intros [_ Hle]]; intuition congruence. Qed.

Lemma canGo_derived_from_state_witness :
  reachable_hooks (registered_hooks (uncontrolled None) 3) ∧
  (canGoNext (render (uncontrolled None) (registered_hooks (uncontrolled None) 3))
     = true ↔
   currentStep (render (uncontrolled None) (registered_hooks (uncontrolled None) 3))
   < totalSteps (render (uncontrolled None) (registered_hooks (uncontrolled None) 3))) ∧
  (canGoPrev (render (uncontrolled None) (registered_hooks (uncontrolled None) 3))
     = true ↔
   currentStep (render (uncontrolled None) (registered_hooks (uncontrolled None) 3))
   > 1).
Proof.
  assert (reachable_hooks (registered_hooks (uncontrolled None) 3)) as Hr.
  { unfold registered_hooks. apply reach_effect, reach_render, reach_mount. }
  split; [exact Hr|].
  apply (canGo_derived_from_state (Callback:=nat)
           (uncontrolled None) (registered_hooks (uncontrolled None) 3) Hr).
Defined.

Lemma nextStep_prevStep_are_goToStep_witness :
  reachable_hooks (registered_hooks (uncontrolled None) 3) ∧
  run_nextStep (nextStep (render (uncontrolled None)
                            (registered_hooks (uncontrolled None) 3)))
  = emit (Err:=string) (SetInternalStep 2).
Proof.
  assert (reachable_hooks (registered_hooks (uncontrolled None) 3)) as Hr.
  { unfold registered_hooks. apply reach_effect, reach_render, reach_mount. }
  split; [exact Hr|].
  destruct (nextStep_prevStep_are_goToStep (Callback:=nat) (Err:=string)
              (uncontrolled None) (registered_hooks (uncontrolled None) 3) Hr)
    as [-> _].
  reflexivity.
Defined.

Lemma goToStep_spec_witness :
  reachable_hooks (registered_hooks (uncontrolled None) 3) ∧
  run_goToStep (goToStep (render (uncontrolled None)
                            (registered_hooks (uncontrolled None) 3))) 5
  = ret (Err:=string) () ∧
  run_goToStep (goToStep (render (uncontrolled None)
                            (registered_hooks (uncontrolled None) 3))) 2
  = emit (Err:=string) (SetInternalStep 2) ∧
  currentStep (render (uncontrolled None)
                 (apply_effects (registered_hooks (uncontrolled None) 3)
                    [SetInternalStep 2])) = 2 ∧
  (run_goToStep (Err:=string)
     (goToStep (render (controlled 1 (Some 9%nat))
                  (registered_hooks (controlled 1 (Some 9%nat)) 3))) 2).1
  = [OnStepChange 9%nat 2].
Proof.
  assert (reachable_hooks (registered_hooks (uncontrolled None) 3)) as Hr.
  { unfold registered_hooks. apply reach_effect, reach_render, reach_mount. }
  assert (reachable_hooks (registered_hooks (controlled 1 (Some 9%nat)) 3)) as Hr'.
  { unfold registered_hooks. apply reach_effect, reach_render, reach_mount. }
  split; [exact Hr|].
  pose proof (goToStep_spec (Callback:=nat) (Err:=string)
                (uncontrolled None) (registered_hooks (uncontrolled None) 3) 5
                Hr) as [Hout _].
  pose proof (goToStep_spec (Callback:=nat) (Err:=string)
                (uncontrolled None) (registered_hooks (uncontrolled None) 3) 2
                Hr) as [_ Hin].
  pose proof (goToStep_spec (Callback:=nat) (Err:=string)
                (controlled 1 (Some 9%nat))
                (registered_hooks (controlled 1 (Some 9%nat)) 3) 2
                Hr') as [_ Hcb].
  split; [apply Hout; right; reflexivity|].
  destruct Hin as [_ Hun]; [split; discriminate|].
  destruct (Hun eq_refl) as [E1 E2].
  split; [exact E1|]. split; [rewrite E1 in E2; exact E2|].
  destruct Hcb as [Hc _]; [split; discriminate|].
  destruct (Hc 1 eq_refl) as [Hcall _]. exact (Hcall 9%nat eq_refl).
Defined.

Lemma defaultStep_not_clamped_witness :
  controlledStep (uncontrolled (Some 7)) = None ∧
  defaultStep (uncontrolled (Some 7)) = Some 7 ∧
  currentStep (w_ctx (wizard (uncontrolled (Some 7)) three_steps)) = 7 ∧
  totalSteps (w_ctx (wizard (uncontrolled (Some 7)) three_steps)) = 3.
Proof.
  split; [reflexivity|]. split; [reflexivity|]. split; [|reflexivity].
  apply (defaultStep_not_clamped (Callback:=nat) (Err:=string) (Node:=string)
           (uncontrolled (Some 7)) 7 eq_refl eq_refl).
Defined.

(** With three registered steps, defaultStep = 0 is the current step. *)
Example defaultStep_zero :
  currentStep (w_ctx (wizard (uncontrolled (Some 0)) three_steps)) = 0 ∧
  totalSteps (w_ctx (wizard (uncontrolled (Some 0)) three_steps)) = 3.
Proof. by vm_compute. Qed.


(** Step 2 of four: indicators 1 and 2 are clickable, 3 and 4 are not, and
    a click on indicator 3 changes nothing. *)
Example indicator_reachability :
  map isClickable
    (StepPages (Err:=string)
       (w_ctx (run (wizard (uncontrolled None) four_steps) [EvNextStep]))
       (with_setter four_steps))
  = [true; true; false; false] ∧
  step (run (wizard (uncontrolled None) four_steps) [EvNextStep])
       (EvClickIndicator 2)
  = run (wizard (uncontrolled None) four_steps) [EvNextStep].
Proof. by vm_compute. Qed.

Lemma indicator_spec_witness :
  reachable (run (wizard (uncontrolled None) four_steps) [EvNextStep]) ∧
  is_Some (StepPages (Err:=string)
             (w_ctx (run (wizard (uncontrolled None) four_steps) [EvNextStep]))
             (with_setter four_steps) !! 2%nat) ∧
  step (run (wizard (uncontrolled None) four_steps) [EvNextStep])
       (EvClickIndicator 2)
  = run (wizard (uncontrolled None) four_steps) [EvNextStep].
Proof.
  assert (reachable (run (wizard (uncontrolled None) four_steps) [EvNextStep]))
    as Hr.
  { exists (uncontrolled None), (with_setter four_steps),
      (default_footer (Some 5%nat)), [EvNextStep]. reflexivity. }
  split; [exact Hr|].
  destruct (StepPages (Err:=string)
              (w_ctx (run (wizard (uncontrolled None) four_steps) [EvNextStep]))
              (with_setter four_steps) !! 2%nat) as [ind|] eqn:E;
    [|discriminate E].
  split; [by eexists|].
  destruct (indicator_spec _ 2%nat ind Hr E) as (_ & _ & _ & _ & _ & _ & Hoff).
  apply Hoff. injection E as <-. reflexivity.
Defined.

Lemma registration_spec_witness :
  reachable (wizard (uncontrolled None) three_steps) ∧
  setTotalSteps (w_stepPages (wizard (uncontrolled None) three_steps)) = true ∧
  totalSteps (w_ctx (wizard (uncontrolled None) three_steps)) = 3 ∧
  totalSteps (w_ctx (set_steps (wizard (uncontrolled None) three_steps) [])) = 0 ∧
  set_steps (wizard (uncontrolled None) three_steps)
            [entry "X"; entry "Y"; entry "Z"]
  = with_steps (wizard (uncontrolled None) three_steps)
               [entry "X"; entry "Y"; entry "Z"].
Proof.
  assert (reachable (wizard (uncontrolled None) three_steps)) as Hr.
  { exists (uncontrolled None), (with_setter three_steps),
      (default_footer (Some 5%nat)), []. reflexivity. }
  split; [exact Hr|]. split; [reflexivity|].
  destruct (registration_spec (wizard (uncontrolled None) three_steps)
              Hr eq_refl) as (Hn & Hany & Hsame).
  split; [exact Hn|]. split; [exact (Hany [])|].
  exact (proj2 (Hsame [entry "X"; entry "Y"; entry "Z"] eq_refl)).
Defined.

Lemma hook_failure_spec_witness :
  onNext (default_footer (Some 5%nat)) = Some 5%nat ∧
  handleNext (default_footer (Some 5%nat))
    (w_ctx (wizard (uncontrolled None) three_steps)) (Rejected "invalid"%string)
  = ([SetIsLoading true; CallHook 5%nat; SetIsLoading false],
     Throw "invalid"%string) ∧
  loading_after true
    (handleNext (default_footer (Some 5%nat))
       (w_ctx (wizard (uncontrolled None) three_steps)) Fulfilled).1 = false.
Proof.
  split; [reflexivity|].
  destruct (hook_failure_spec (default_footer (Some 5%nat))
              (w_ctx (wizard (uncontrolled None) three_steps)) 5%nat
              "invalid"%string) as (Hnext & _ & _ & _ & Hidle).
  split; [exact (Hnext eq_refl)|]. exact (proj1 (Hidle Fulfilled true)).
Defined.

(** The failure path in the transition system: a rejecting [onNext] keeps
    the wizard on step 1 and the footer returns to idle. *)
Example rejected_hook_keeps_step :
  currentStep (w_ctx (run (wizard (uncontrolled None) three_steps)
                          [EvClickNext None; EvSettle 0 (Rejected "invalid"%string)]))
  = 1 ∧
  w_isLoading (run (wizard (uncontrolled None) three_steps)
                   [EvClickNext None; EvSettle 0 (Rejected "invalid"%string)])
  = false ∧
  w_thrown (run (wizard (uncontrolled None) three_steps)
                [EvClickNext None; EvSettle 0 (Rejected "invalid"%string)])
  = ["invalid"%string].
Proof. by vm_compute. Qed.


(** Two clicks on next while the hook is pending advance by one step. *)
Example double_click_advances_once :
  currentStep (w_ctx (run (wizard (uncontrolled None) three_steps)
                          [EvClickNext None; EvClickNext None;
                           EvSettle 0 Fulfilled])) = 2.
Proof. reflexivity. Qed.



(** Controlled mode: goToStep(2) reports 2 to the application and the
    current step stays 1 until the application supplies 2. *)
Example controlled_feedback :
  currentStep
    (w_ctx (run (init (Err:=string) (controlled 1 (Some 9%nat))
                   (with_setter three_steps) (default_footer None))
                [EvGoToStep 2])) = 1 ∧
  callback_calls
    (w_trace (run (init (Err:=string) (controlled 1 (Some 9%nat))
                     (with_setter three_steps) (default_footer None))
                  [EvGoToStep 2])) = [(9%nat, 2)] ∧
  currentStep
    (w_ctx (run (init (Err:=string) (controlled 1 (Some 9%nat))
                   (with_setter three_steps) (default_footer None))
                [EvGoToStep 2; EvProps (controlled 2 (Some 9%nat))])) = 2.
Proof. by vm_compute. Qed.

(** Without a defaultStep the wizard starts on step 1. *)
Example defaultStep_absent :
  currentStep (w_ctx (wizard (uncontrolled None) three_steps)) = 1.
Proof. reflexivity. Qed.

(** ** Instances of the further properties *)

Lemma flags_tell_navigation_witness :
  reachable_hooks (registered_hooks (uncontrolled None) 3) ∧
  run_nextStep (nextStep (render (uncontrolled None)
                            (registered_hooks (uncontrolled None) 3)))
  = emit (Err:=string) (SetInternalStep 2) ∧
  run_prevStep (prevStep (render (uncontrolled None)
                            (registered_hooks (uncontrolled None) 3)))
  = ret (Err:=string) ().
Proof.
  assert (reachable_hooks (registered_hooks (uncontrolled None) 3)) as Hr.
  { unfold registered_hooks. apply reach_effect, reach_render, reach_mount. }
  split; [exact Hr|].
  destruct (flags_tell_navigation (Callback:=nat) (Err:=string)
              (uncontrolled None) (registered_hooks (uncontrolled None) 3) Hr)
    as (_ & Hprev & Hnext & _).
  split; [|exact (Hprev eq_refl)].
  apply Hnext; [reflexivity|discriminate|reflexivity].
Defined.



Lemma last_accepted_target_wins_witness :
  reachable (wizard (uncontrolled None) three_steps) ∧
  currentStep (w_ctx (run (wizard (uncontrolled None) three_steps)
                          (EvGoToStep <$> [2; 7; 3; 0]))) = 3.
Proof.
  assert (reachable (wizard (uncontrolled None) three_steps)) as Hr.
  { exists (uncontrolled None), (with_setter three_steps),
      (default_footer (Some 5%nat)), []. reflexivity. }
  split; [exact Hr|].
  exact (last_accepted_target_wins (wizard (uncontrolled None) three_steps)
           [2; 7; 3; 0] Hr eq_refl).
Defined.

Lemma unregistered_wizard_never_moves_witness :
  setTotalSteps (as_written three_steps) = false ∧
  Forall keeps_props
    [EvNextStep (Callback:=nat) (Err:=string) (Node:=string); EvGoToStep 2;
     EvClickNext None; EvSettle 0 Fulfilled; EvClickIndicator 0] ∧
  totalSteps
    (w_ctx (run (init (Err:=string) (uncontrolled None) (as_written three_steps)
                   (default_footer (Some 5%nat)))
                [EvNextStep; EvGoToStep 2; EvClickNext None;
                 EvSettle 0 Fulfilled; EvClickIndicator 0])) = 0.
Proof.
  assert (Forall keeps_props
    [EvNextStep (Callback:=nat) (Err:=string) (Node:=string); EvGoToStep 2;
     EvClickNext None; EvSettle 0 Fulfilled; EvClickIndicator 0]) as Hevs
    by (repeat constructor).
  split; [reflexivity|]. split; [exact Hevs|].
  exact (proj1 (unregistered_wizard_never_moves (uncontrolled None)
                  (as_written three_steps) (default_footer (Some 5%nat)) _
                  eq_refl Hevs)).
Defined.

Lemma new_step_list_keeps_current_step_witness :
  reachable (run (wizard (uncontrolled None) three_steps)
                 [EvNextStep; EvNextStep]) ∧
  currentStep
    (w_ctx (set_steps (run (wizard (uncontrolled None) three_steps)
                           [EvNextStep; EvNextStep]) [entry "A"])) = 3 ∧
  canGoNext
    (w_ctx (set_steps (run (wizard (uncontrolled None) three_steps)
                           [EvNextStep; EvNextStep]) [entry "A"])) = false.
Proof.
  assert (reachable (run (wizard (uncontrolled None) three_steps)
                         [EvNextStep; EvNextStep])) as Hr.
  { exists (uncontrolled None), (with_setter three_steps),
      (default_footer (Some 5%nat)), [EvNextStep; EvNextStep]. reflexivity. }
  split; [exact Hr|].
  destruct (new_step_list_keeps_current_step
              (run (wizard (uncontrolled None) three_steps)
                   [EvNextStep; EvNextStep]) [entry "A"] Hr)
    as [Hsame Hshort].
  split; [exact Hsame|]. exact (proj1 (Hshort eq_refl eq_refl)).
Defined.

Lemma indicator_click_never_advances_witness :
  reachable (run (wizard (uncontrolled None) four_steps)
                 [EvNextStep; EvNextStep]) ∧
  currentStep
    (w_ctx (step (run (wizard (uncontrolled None) four_steps)
                      [EvNextStep; EvNextStep]) (EvClickIndicator 3)))
  ≤ currentStep
      (w_ctx (run (wizard (uncontrolled None) four_steps)
                  [EvNextStep; EvNextStep])).
Proof.
  assert (reachable (run (wizard (uncontrolled None) four_steps)
                         [EvNextStep; EvNextStep])) as Hr.
  { exists (uncontrolled None), (with_setter four_steps),
      (default_footer (Some 5%nat)), [EvNextStep; EvNextStep]. reflexivity. }
  split; [exact Hr|].
  exact (proj1 (indicator_click_never_advances
                  (run (wizard (uncontrolled None) four_steps)
                       [EvNextStep; EvNextStep]) 3 Hr)).
Defined.

Lemma finish_button_is_disabled_witness :
  reachable (run (wizard (uncontrolled None) three_steps)
                 [EvNextStep; EvNextStep]) ∧
  click_footer (run (wizard (uncontrolled None) three_steps)
                    [EvNextStep; EvNextStep]) Next None
  = run (wizard (uncontrolled None) three_steps) [EvNextStep; EvNextStep].
Proof.
  assert (reachable (run (wizard (uncontrolled None) three_steps)
                         [EvNextStep; EvNextStep])) as Hr.
  { exists (uncontrolled None), (with_setter three_steps),
      (default_footer (Some 5%nat)), [EvNextStep; EvNextStep]. reflexivity. }
  split; [exact Hr|].
  destruct (finish_button_is_disabled
              (run (wizard (uncontrolled None) three_steps)
                   [EvNextStep; EvNextStep]) _ Hr eq_refl)
    as (Hlast & _ & _).
  destruct (Hlast eq_refl) as (_ & _ & Hclick).
  exact (Hclick None).
Defined.


Lemma footer_pending_invariant_witness :
  reachable (run (wizard (uncontrolled None) three_steps) [EvClickNext None]) ∧
  (length (w_suspended (run (wizard (uncontrolled None) three_steps)
                            [EvClickNext None])) ≤ 1)%nat ∧
  w_isLoading (run (wizard (uncontrolled None) three_steps) [EvClickNext None])
  = true.
Proof.
  assert (reachable (run (wizard (uncontrolled None) three_steps)
                         [EvClickNext None])) as Hr.
  { exists (uncontrolled None), (with_setter three_steps),
      (default_footer (Some 5%nat)), [EvClickNext None]. reflexivity. }
  split; [exact Hr|].
  destruct (footer_pending_invariant
              (run (wizard (uncontrolled None) three_steps) [EvClickNext None])
              Hr) as [Hone Hloading].
  split; [exact Hone|]. apply (proj2 Hloading). vm_compute. discriminate.
Defined.

Lemma pending_next_uses_step_of_click_witness :
  reachable (wizard (uncontrolled None) three_steps) ∧
  Forall is_navigation
    [EvGoToStep (Callback:=nat) (Err:=string) (Node:=string) 3; EvPrevStep] ∧
  currentStep
    (w_ctx (run (wizard (uncontrolled None) three_steps)
                (EvClickNext None
                 :: [EvGoToStep 3; EvPrevStep] ++ [EvSettle 0 Fulfilled])))
  = 2.
Proof.
  assert (reachable (wizard (uncontrolled None) three_steps)) as Hr.
  { exists (uncontrolled None), (with_setter three_steps),
      (default_footer (Some 5%nat)), []. reflexivity. }
  assert (Forall is_navigation
    [EvGoToStep (Callback:=nat) (Err:=string) (Node:=string) 3; EvPrevStep])
    as Hevs by (repeat constructor).
  split; [exact Hr|]. split; [exact Hevs|].
  eapply (pending_next_uses_step_of_click
            (wizard (uncontrolled None) three_steps) _ _
            Hr eq_refl eq_refl eq_refl).
  - discriminate.
  - exact Hevs.
Defined.

Lemma only_direct_step_lists_register_witness :
  forallb written_without_setter documented_tree = true ∧
  totalStepsCell (mount_tree (uncontrolled None) documented_tree) = 0 ∧
  totalStepsCell (mount_tree (uncontrolled None) flat_tree) = 3.
Proof.
  split; [reflexivity|].
  split.
  - exact (only_direct_step_lists_register (uncontrolled None) documented_tree
             eq_refl).
  - exact (only_direct_step_lists_register (uncontrolled None) flat_tree
             eq_refl).
Defined.

Lemma CustomNavigationButtons_work_witness :
  reachable_hooks (registered_hooks (uncontrolled None) 3) ∧
  in_bounds (render (uncontrolled None) (registered_hooks (uncontrolled None) 3)) ∧
  ∃ target,
    run_nextStep (nextStep (render (uncontrolled None)
                              (registered_hooks (uncontrolled None) 3)))
    = emit (Err:=string) (SetInternalStep target) ∧
    1 ≤ target ≤ 3.
Proof.
  assert (reachable_hooks (registered_hooks (uncontrolled None) 3)) as Hr.
  { unfold registered_hooks. apply reach_effect, reach_render, reach_mount. }
  assert (in_bounds (render (uncontrolled None)
                       (registered_hooks (uncontrolled None) 3))) as Hin.
  { split; discriminate. }
  split; [exact Hr|]. split; [exact Hin|].
  destruct (CustomNavigationButtons_work (Callback:=nat) (Err:=string)
              (uncontrolled None) (registered_hooks (uncontrolled None) 3)
              Hr eq_refl Hin) as [Hshown _].
  destruct (Hshown "Next"%string
              (run_nextStep (nextStep (render (uncontrolled None)
                                         (registered_hooks (uncontrolled None) 3)))))
    as (target & Hm & Hrange & _).
  { left. }
  exists target. split; [exact Hm|exact Hrange].
Defined.

Lemma CustomFooterContent_dots_witness :
  reachable_hooks (registered_hooks (uncontrolled None) 3) ∧
  dots (CustomFooterContent (Err:=string)
          (render (uncontrolled None) (registered_hooks (uncontrolled None) 3))
          true)
  = [true; false; false].
Proof.
  assert (reachable_hooks (registered_hooks (uncontrolled None) 3)) as Hr.
  { unfold registered_hooks. apply reach_effect, reach_render, reach_mount. }
  split; [exact Hr|].
  destruct (CustomFooterContent_dots (Callback:=nat) (Err:=string)
              (uncontrolled None) (registered_hooks (uncontrolled None) 3)
              true Hr) as (_ & Hdots & _).
  exact Hdots.
Defined.

Lemma ControlledStepPage_follows_uncontrolled_witness :
  (∀ v, cb_throws (Err:=string) 9%nat v = None) ∧
  Forall keeps_props
    [EvNextStep (Callback:=nat) (Err:=string) (Node:=string); EvClickNext None;
     EvGoToStep 3; EvSettle 0 Fulfilled; EvClickIndicator 0; EvNextStep] ∧
  c_currentStep
    (ControlledStepPage_run 9%nat
       (ControlledStepPage_mount 9%nat (with_setter three_steps)
          (default_footer (Some 5%nat)))
       [EvNextStep; EvClickNext None; EvGoToStep 3; EvSettle 0 Fulfilled;
        EvClickIndicator 0; EvNextStep])
  = currentStep
      (w_ctx (run (init uncontrolled_props (with_setter three_steps)
                     (default_footer (Some 5%nat)))
                [EvNextStep; EvClickNext None; EvGoToStep 3;
                 EvSettle 0 Fulfilled; EvClickIndicator 0; EvNextStep])).
Proof.
  assert (∀ v, cb_throws (Err:=string) 9%nat v = None) as Hret
    by (intros v; reflexivity).
  assert (Forall keeps_props
    [EvNextStep (Callback:=nat) (Err:=string) (Node:=string); EvClickNext None;
     EvGoToStep 3; EvSettle 0 Fulfilled; EvClickIndicator 0; EvNextStep])
    as Hevs by (repeat constructor).
  split; [exact Hret|]. split; [exact Hevs|].
  destruct (ControlledStepPage_follows_uncontrolled 9%nat
              (with_setter three_steps) (default_footer (Some 5%nat)) _
              Hret Hevs) as (Hstate & Hsame & _).
  rewrite <- Hstate. exact Hsame.
Defined.

(** The controlled example on three registered steps: next, a click on
    next whose hook is pending while the wizard is sent to step 3, the
    fulfilment of the hook, a click on the first indicator, and next. *)
Example ControlledStepPage_run_steps :
  map (λ evs, c_currentStep
                (ControlledStepPage_run (Err:=string) 9%nat
                   (ControlledStepPage_mount 9%nat (with_setter three_steps)
                      (default_footer (Some 5%nat))) evs))
      [ [];
        [EvNextStep];
        [EvNextStep; EvClickNext None; EvGoToStep 3];
        [EvNextStep; EvClickNext None; EvGoToStep 3; EvSettle 0 Fulfilled];
        [EvNextStep; EvClickNext None; EvGoToStep 3; EvSettle 0 Fulfilled;
         EvClickIndicator 0];
        [EvNextStep; EvClickNext None; EvGoToStep 3; EvSettle 0 Fulfilled;
         EvClickIndicator 0; EvNextStep] ]
  = [1; 2; 3; 3; 1; 2].
Proof. by vm_compute. Qed.

(** The feature toggle on the features of the demo. *)
Example toggleFeature_demo :
  toggleFeature [] "Database" = ["Database"%string] ∧
  toggleFeature ["Authentication"; "Database"]%string "Authentication"
  = ["Database"%string] ∧
  toggleFeature (toggleFeature ["Authentication"; "Database"]%string
                   "Authentication") "Authentication"
  = ["Database"; "Authentication"]%string.
Proof. by vm_compute. Qed.
